(** * ddspdrum: parameters, ADSR envelope, oscillators and amplifier

    A shallow embedding of [src/ddspdrum/parameter.py] and
    [src/ddspdrum/torchmodule.py].

    - Python exceptions are the [Raise] branch of the [result] monad.
    - A 0-dim tensor is a scalar [float]; a 1-dim tensor is a [list float].
    - Scalars follow IEEE-754 in their special values (infinities, NaN,
      division by zero, logarithm of zero) and are exact on finite values:
      a finite scalar is a real number and no rounding of the mantissa is
      modelled.  Integers are unbounded.
    - The parameter registry [nn.ParameterDict] is a [gmap string _].
    - A method call on a parameter goes through the attribute lookup of its
      class, [TorchParameter.getattr].
    - The methods of [TorchADSR] and [TorchVCO] read parameters with
      [self.p(name)].  They are written over that method, a variable [p] of
      their section, and [TorchADSR.forward], [TorchVCO.forward] bind it to
      [TorchSynthModule.p], the one method of that name in the sources.
    - An object that a method mutates is passed in and returned. *)

From stdpp Require Import gmap strings.
From Stdlib Require Import Reals Lra Lia ZArith List.
Import ListNotations.

(** ** Python exceptions and results *)

Inductive exn : Set :=
| AssertionError
| AttributeError
| IndexError
| KeyError
| RuntimeError
| TypeError
| ValueError.

Inductive result (A : Type) : Type :=
| Ok (a : A)
| Raise (e : exn).
Arguments Ok {A} a.
Arguments Raise {A} e.

Definition bind {A B} (r : result A) (k : A -> result B) : result B :=
  match r with
  | Ok a => k a
  | Raise e => Raise e
  end.

Notation "'let!' x ':=' r 'in' k" := (bind r (fun x => k))
  (at level 10, x name, r at level 100, k at level 200).
Notation "'do!' r 'in' k" := (bind r (fun _ => k))
  (at level 10, r at level 100, k at level 200).

(** [assert c] *)
Definition assert (c : bool) : result unit :=
  if c then Ok tt else Raise AssertionError.

(** An expression statement: the value is computed and dropped. *)
Definition expr_stmt {A B} (_ : A) (k : B) : B := k.

(** ** Scalars *)

Inductive float : Type :=
| Fin (x : R)
| PInf
| NInf
| NaN.

Declare Scope float_scope.
Delimit Scope float_scope with fl.
Bind Scope float_scope with float.

Module Float.
Local Open Scope R_scope.

Definition Rleb (a b : R) : bool := if Rle_dec a b then true else false.
Definition Rltb (a b : R) : bool := if Rlt_dec a b then true else false.
Definition Reqb (a b : R) : bool := if Req_dec_T a b then true else false.

Definition of_Z (z : Z) : float := Fin (IZR z).

Definition neg (x : float) : float :=
  match x with
  | Fin a => Fin (- a)
  | PInf => NInf
  | NInf => PInf
  | NaN => NaN
  end.

Definition add (x y : float) : float :=
  match x, y with
  | NaN, _ | _, NaN => NaN
  | Fin a, Fin b => Fin (a + b)
  | PInf, NInf | NInf, PInf => NaN
  | PInf, _ | _, PInf => PInf
  | NInf, _ | _, NInf => NInf
  end.

Definition sub (x y : float) : float := add x (neg y).

(** The infinity with the sign of [a]; zero has no sign here and counts
    as positive. *)
Definition signed_inf (positive : bool) : float :=
  if positive then PInf else NInf.

Definition mul (x y : float) : float :=
  match x, y with
  | NaN, _ | _, NaN => NaN
  | Fin a, Fin b => Fin (a * b)
  | Fin a, PInf | PInf, Fin a =>
      if Reqb a 0 then NaN else signed_inf (Rltb 0 a)
  | Fin a, NInf | NInf, Fin a =>
      if Reqb a 0 then NaN else signed_inf (Rltb a 0)
  | PInf, PInf | NInf, NInf => PInf
  | PInf, NInf | NInf, PInf => NInf
  end.

Definition div (x y : float) : float :=
  match x, y with
  | NaN, _ | _, NaN => NaN
  | Fin a, Fin b =>
      if Reqb b 0
      then if Reqb a 0 then NaN else signed_inf (Rltb 0 a)
      else Fin (a / b)
  | Fin _, PInf | Fin _, NInf => Fin 0
  | PInf, Fin b => signed_inf (Rleb 0 b)
  | NInf, Fin b => signed_inf (Rltb b 0)
  | _, _ => NaN
  end.

(** Comparisons: every comparison with NaN is false. *)
Definition le (x y : float) : bool :=
  match x, y with
  | NaN, _ | _, NaN => false
  | Fin a, Fin b => Rleb a b
  | NInf, _ | _, PInf => true
  | _, _ => false
  end.

Definition eqb (x y : float) : bool :=
  match x, y with
  | Fin a, Fin b => Reqb a b
  | PInf, PInf | NInf, NInf => true
  | _, _ => false
  end.

Definition ge (x y : float) : bool := le y x.

(** [torch.round]: to the nearest integer, halves to the even one. *)
Definition round_half_even (x : R) : Z :=
  let f := Int_part x in
  let d := x - IZR f in
  if Rltb d (1 / 2) then f
  else if Rltb (1 / 2) d then (f + 1)%Z
  else if Z.even f then f else (f + 1)%Z.

(** [torch.round(x).int()].  The conversion of a value that is not finite
    is left open by torch; the x86 result, the least 32-bit integer, is
    used.  Finite values convert to the mathematical integer. *)
Definition round_int (x : float) : Z :=
  match x with
  | Fin a => round_half_even a
  | _ => (- 2147483648)%Z
  end.

Definition log2 (x : float) : float :=
  match x with
  | Fin a => if Rltb 0 a then Fin (ln a / ln 2)
             else if Reqb a 0 then NInf else NaN
  | PInf => PInf
  | _ => NaN
  end.

Definition exp2 (x : float) : float :=
  match x with
  | Fin a => Fin (Rpower 2 a)
  | PInf => PInf
  | NInf => Fin 0
  | NaN => NaN
  end.

Definition log10 (x : float) : float :=
  match x with
  | Fin a => if Rltb 0 a then Fin (ln a / ln 10)
             else if Reqb a 0 then NInf else NaN
  | PInf => PInf
  | _ => NaN
  end.

Definition is_integer (y : R) : bool := Reqb (IZR (Int_part y)) y.
Definition is_odd_integer (y : R) : bool :=
  is_integer y && Z.odd (Int_part y).

(** [torch.pow] on scalars, with the special cases of C's [pow]. *)
Definition pow (x y : float) : float :=
  match x, y with
  | _, Fin b =>
      if Reqb b 0 then Fin 1 else
      match x with
      | Fin a =>
          if Rltb 0 a then Fin (Rpower a b)
          else if Reqb a 0 then (if Rltb 0 b then Fin 0 else PInf)
          else if is_integer b
               then Fin ((if is_odd_integer b then -1 else 1) * Rpower (- a) b)
               else NaN
      | PInf => if Rltb 0 b then PInf else Fin 0
      | NInf => if Rltb 0 b
                then (if is_odd_integer b then NInf else PInf)
                else Fin 0
      | NaN => NaN
      end
  | Fin a, PInf =>
      if Reqb (Rabs a) 1 then Fin 1
      else if Rltb (Rabs a) 1 then Fin 0 else PInf
  | Fin a, NInf =>
      if Reqb (Rabs a) 1 then Fin 1
      else if Rltb (Rabs a) 1 then PInf else Fin 0
  | PInf, PInf | NInf, PInf => PInf
  | PInf, NInf | NInf, NInf => Fin 0
  | Fin a, NaN => if Reqb a 1 then Fin 1 else NaN
  | _, _ => NaN
  end.

Definition cos (x : float) : float :=
  match x with Fin a => Fin (Rtrigo_def.cos a) | _ => NaN end.
Definition sin (x : float) : float :=
  match x with Fin a => Fin (Rtrigo_def.sin a) | _ => NaN end.
Definition tanh (x : float) : float :=
  match x with
  | Fin a => Fin (Rtrigo_def.tanh a)
  | PInf => Fin 1
  | NInf => Fin (-1)
  | NaN => NaN
  end.

(** [torch.pi] *)
Definition pi : float := Fin PI.
End Float.

Notation "x + y" := (Float.add x y) : float_scope.
Notation "x - y" := (Float.sub x y) : float_scope.
Notation "x * y" := (Float.mul x y) : float_scope.
Notation "x / y" := (Float.div x y) : float_scope.
Notation "x <=? y" := (Float.le x y) : float_scope.
Notation "x >=? y" := (Float.ge x y) : float_scope.
Notation "x ==? y" := (Float.eqb x y) (at level 70) : float_scope.

(** [T(v)] for a finite literal [v]. *)
Definition T (v : R) : float := Fin v.

(** ** 1-dim tensors *)

Definition tensor : Type := list float.

Module Tensor.
Local Open Scope float_scope.

(** [torch.arange(n)]: a negative bound is refused. *)
Definition arange (n : Z) : result tensor :=
  if (n <? 0)%Z then Raise RuntimeError
  else Ok (map (fun i : nat => Float.of_Z (Z.of_nat i)) (seq 0 (Z.to_nat n))).

(** [torch.ones(n)] *)
Definition ones (n : Z) : result tensor :=
  if (n <? 0)%Z then Raise RuntimeError
  else Ok (repeat (T 1) (Z.to_nat n)).

(** [x[-1]] *)
Definition last_item (x : tensor) : result float :=
  match rev x with
  | [] => Raise IndexError
  | v :: _ => Ok v
  end.

(** [x[:n]]: a negative [n] counts from the end. *)
Definition slice_to (x : tensor) (n : Z) : tensor :=
  if (n <? 0)%Z then firstn (Z.to_nat (Z.of_nat (length x) + n)) x
  else firstn (Z.to_nat n) x.

(** [torch.cumsum(x, dim=0)] *)
Fixpoint cumsum_from (acc : float) (x : tensor) : tensor :=
  match x with
  | [] => []
  | v :: x' => (acc + v) :: cumsum_from (acc + v) x'
  end.

Definition cumsum (x : tensor) : tensor :=
  match x with
  | [] => []
  | v :: x' => v :: cumsum_from v x'
  end.

(** [(x >= c).all()], [(x <= c).all()], [(x <= c).any()], ... *)
Definition all_ge (x : tensor) (c : float) : bool := forallb (fun v => v >=? c) x.
Definition all_le (x : tensor) (c : float) : bool := forallb (fun v => v <=? c) x.
Definition any_ge (x : tensor) (c : float) : bool := existsb (fun v => v >=? c) x.
Definition any_le (x : tensor) (c : float) : bool := existsb (fun v => v <=? c) x.

(** [x * y] on tensors of one length; no broadcasting is modelled. *)
Fixpoint mul (x y : tensor) : result tensor :=
  match x, y with
  | [], [] => Ok []
  | a :: x', b :: y' => let! r := mul x' y' in Ok (a * b :: r)
  | _, _ => Raise RuntimeError
  end.
End Tensor.

(** ** parameter.py *)

Module ParameterRange.
Local Open Scope float_scope.

Record t : Type := mk
  { minimum : float;
    maximum : float;
    curve_type : string;
    curve : float }.

(** [ParameterRange.__init__] *)
Definition init (minimum maximum : float) (curve : string) : result t :=
  if String.eqb curve "linear" then Ok (mk minimum maximum curve (T 1))
  else if String.eqb curve "log" then Ok (mk minimum maximum curve (T 0.5))
  else if String.eqb curve "exp" then Ok (mk minimum maximum curve (T 2))
  else Raise ValueError.

(** [ParameterRange.from_0to1] *)
Definition from_0to1 (self : t) (value : float) : result float :=
  do! assert (T 0 <=? value) in
  do! assert (value <=? T 1) in
  let value :=
    if negb (curve self ==? T 1)
    then Float.exp2 (Float.log2 value / curve self)
    else value in
  Ok (minimum self + (maximum self - minimum self) * value).

(** [ParameterRange.to_0to1] *)
Definition to_0to1 (self : t) (value : float) : result float :=
  do! assert (minimum self <=? value) in
  do! assert (value <=? maximum self) in
  let normalized := (value - minimum self) / (maximum self - minimum self) in
  let normalized :=
    if negb (curve self ==? T 1)
    then Float.pow normalized (curve self)
    else normalized in
  Ok normalized.
End ParameterRange.

Module TorchParameter.
Record t : Type := mk
  { data : float;
    parameter_range : option ParameterRange.t;
    parameter_name : string }.

(** [TorchParameter.__new__].  [data] is the tensor that is stored when no
    [value] is given. *)
Definition new (value : option float) (parameter_name : string)
    (parameter_range : option ParameterRange.t) (data : float) : result t :=
  let! data :=
    match value with
    | Some v =>
        match parameter_range with
        | Some r => ParameterRange.to_0to1 r v
        | None => Raise ValueError
        end
    | None => Ok data
    end in
  Ok (mk data parameter_range parameter_name).

(** [TorchParameter.get_float] *)
Definition get_float (self : t) : float := data self.

(** [TorchParameter.get_in_range] *)
Definition get_in_range (self : t) : result float :=
  match parameter_range self with
  | Some r => ParameterRange.from_0to1 r (data self)
  | None => Ok (data self)
  end.

(** [TorchParameter.set_with_range]: the parameter after the assignment
    to [self.data]. *)
Definition set_with_range (self : t) (new_value : float) : result t :=
  match parameter_range self with
  | Some r =>
      let! d := ParameterRange.to_0to1 r new_value in
      Ok (mk d (parameter_range self) (parameter_name self))
  | None => Raise RuntimeError
  end.

(** The methods that the class body defines.  [torchmodule.py] looks up
    two method names on a parameter, [from_0to1] and [to_0to1]; the base
    classes ([nn.Parameter], [torch.Tensor]) have no method of either name,
    so these three are all that such a lookup can find. *)
Inductive method : Set :=
| m_get_float
| m_get_in_range
| m_set_with_range.

(** Attribute lookup [param.<name>] for a method name. *)
Definition getattr (name : string) : result method :=
  if String.eqb name "get_float" then Ok m_get_float
  else if String.eqb name "get_in_range" then Ok m_get_in_range
  else if String.eqb name "set_with_range" then Ok m_set_with_range
  else Raise AttributeError.

(** [param.<name>()] *)
Definition call0 (self : t) (name : string) : result float :=
  let! m := getattr name in
  match m with
  | m_get_float => Ok (get_float self)
  | m_get_in_range => get_in_range self
  | m_set_with_range => Raise TypeError
  end.

(** [param.<name>(arg)]: the parameter after the call. *)
Definition call1 (self : t) (name : string) (arg : float) : result t :=
  let! m := getattr name in
  match m with
  | m_set_with_range => set_with_range self arg
  | m_get_float | m_get_in_range => Raise TypeError
  end.
End TorchParameter.

(** ** torchutil.py and defaults.py

    [torchmodule.py] imports [fix_length], [midi_to_hz] and [normalize] from
    [ddspdrum.torchutil] and [BUFFER_SIZE], [SAMPLE_RATE] from
    [ddspdrum.defaults].  The two constants are arguments of what uses them. *)

Module TorchUtil.
Local Open Scope float_scope.

(** Modelled from the spec: [fix_length] of torchutil.py is not among the
    sources.  The signal is truncated or zero-padded to exactly [length]
    samples. *)
Definition fix_length (signal : tensor) (length : Z) : tensor :=
  let n := Z.to_nat length in
  firstn n signal ++ repeat (T 0) (n - List.length signal).

(** Modelled from the spec: [midi_to_hz] of torchutil.py is not among the
    sources.  The standard MIDI-to-frequency formula,
    [440 * 2^((midi - 69) / 12)]. *)
Definition midi_to_hz (midi : float) : float :=
  T 440 * Float.exp2 ((midi - T 69) / T 12).

Definition abs (x : float) : float :=
  match x with
  | Fin a => Fin (Rabs a)
  | PInf | NInf => PInf
  | NaN => NaN
  end.

Definition max (x y : float) : float :=
  match x, y with
  | NaN, _ | _, NaN => NaN
  | _, _ => if x <=? y then y else x
  end.

(** The peak magnitude [max(abs(signal))]. *)
Definition peak (signal : tensor) : float :=
  fold_right (fun v m => max (abs v) m) (T 0) signal.

(** Modelled from the spec: [normalize] of torchutil.py is not among the
    sources.  It gives the signal rescaled so that its peak magnitude
    is 1. *)
Definition normalize (signal : tensor) : tensor :=
  map (fun v => v / peak signal) signal.
End TorchUtil.

(** ** torchmodule.py: the base class *)

Module TorchSynthModule.
Local Open Scope float_scope.

Record t : Type := mk
  { sample_rate : Z;
    buffer_size : Z;
    torchparameters : gmap string TorchParameter.t }.

(** [TorchSynthModule.__init__] *)
Definition init (sample_rate buffer_size : Z) : t :=
  mk sample_rate buffer_size ∅.

(** [self.torchparameters[parameter_id]] *)
Definition getitem (self : t) (parameter_id : string)
  : result TorchParameter.t :=
  match torchparameters self !! parameter_id with
  | Some prm => Ok prm
  | None => Raise KeyError
  end.

Definition setitem (self : t) (parameter_id : string)
    (prm : TorchParameter.t) : t :=
  mk (sample_rate self) (buffer_size self)
     (<[parameter_id := prm]> (torchparameters self)).

(** [to_buffer_size] *)
Definition to_buffer_size (self : t) (signal : tensor) : tensor :=
  TorchUtil.fix_length signal (buffer_size self).

(** [seconds_to_samples] *)
Definition seconds_to_samples (self : t) (seconds : float) : result Z :=
  Ok (Float.round_int (seconds * Float.of_Z (sample_rate self))).

(** [add_parameters] *)
Fixpoint add_parameters (self : t) (parameters : list TorchParameter.t)
  : result t :=
  match parameters with
  | [] => Ok self
  | parameter :: rest =>
      do! assert (bool_decide
            (torchparameters self !! TorchParameter.parameter_name parameter
             = None)) in
      add_parameters
        (setitem self (TorchParameter.parameter_name parameter) parameter)
        rest
  end.

(** [get_parameter] *)
Definition get_parameter (self : t) (parameter_id : string)
  : result TorchParameter.t :=
  getitem self parameter_id.

(** [get_parameter_0to1] *)
Definition get_parameter_0to1 (self : t) (parameter_id : string)
  : result float :=
  let! prm := getitem self parameter_id in
  Ok (TorchParameter.data prm).

(** [set_parameter]: the module after the call.  The body is
    [self.torchparameters[parameter_id].to_0to1(T(value))]. *)
Definition set_parameter (self : t) (parameter_id : string) (value : float)
  : result t :=
  let! prm := getitem self parameter_id in
  let! prm' := TorchParameter.call1 prm "to_0to1" value in
  Ok (setitem self parameter_id prm').

(** [set_parameter_0to1]: the module after the call. *)
Definition set_parameter_0to1 (self : t) (parameter_id : string)
    (value : float) : result t :=
  do! assert ((T 0 <=? value) && (value <=? T 1)) in
  let! prm := getitem self parameter_id in
  Ok (setitem self parameter_id
        (TorchParameter.mk value (TorchParameter.parameter_range prm)
           (TorchParameter.parameter_name prm))).

(** [p]: the body is [self.torchparameters[parameter_id].from_0to1()]. *)
Definition p (self : t) (parameter_id : string) : result float :=
  let! prm := getitem self parameter_id in
  TorchParameter.call0 prm "from_0to1".
End TorchSynthModule.

(** ** torchmodule.py: TorchADSR

    The methods call [self.p(name)] to read a parameter.  They are written
    over the method [p] they are given; [TorchADSR.forward] below binds it to
    [TorchSynthModule.p], as the class does. *)

Module TorchADSR.
Local Open Scope float_scope.

(** [TorchADSR.__init__]: the five parameters with their declared ranges. *)
Definition init (a d s r alpha : float) (sample_rate buffer_size : Z)
  : result TorchSynthModule.t :=
  let self := TorchSynthModule.init sample_rate buffer_size in
  let! r_attack := ParameterRange.init (T 0) (T 2) "log" in
  let! p_attack := TorchParameter.new (Some a) "attack" (Some r_attack) (T 0) in
  let! r_decay := ParameterRange.init (T 0) (T 2) "log" in
  let! p_decay := TorchParameter.new (Some d) "decay" (Some r_decay) (T 0) in
  let! r_sustain := ParameterRange.init (T 0) (T 1) "linear" in
  let! p_sustain := TorchParameter.new (Some s) "sustain" (Some r_sustain) (T 0) in
  let! r_release := ParameterRange.init (T 0) (T 5) "log" in
  let! p_release := TorchParameter.new (Some r) "release" (Some r_release) (T 0) in
  let! r_alpha := ParameterRange.init (T 0.1) (T 6) "linear" in
  let! p_alpha := TorchParameter.new (Some alpha) "alpha" (Some r_alpha) (T 0) in
  TorchSynthModule.add_parameters self
    [p_attack; p_decay; p_sustain; p_release; p_alpha].

Section Methods.
Variable self : TorchSynthModule.t.
Variable p : string -> result float.

(** [_ramp] *)
Definition _ramp (duration : float) (inverse : bool) : result tensor :=
  let! n := TorchSynthModule.seconds_to_samples self duration in
  let! idx := Tensor.arange n in
  let t := map (fun i => i / Float.of_Z (TorchSynthModule.sample_rate self)) idx in
  let ramp := map (fun v => v * (T 1 / duration)) t in
  let ramp := if inverse then map (fun v => T 1 - v) ramp else ramp in
  let! alpha := p "alpha" in
  Ok (map (fun v => Float.pow v alpha) ramp).

(** the property [attack] *)
Definition attack : result tensor :=
  let! a := p "attack" in
  _ramp a false.

(** the property [decay] *)
Definition decay : result tensor :=
  let! d := p "decay" in
  let! decay := _ramp d true in
  let! s1 := p "sustain" in
  let! s2 := p "sustain" in
  Ok (map (fun v => v * (T 1 - s1) + s2) decay).

(** the property [release] *)
Definition release : result tensor :=
  let! r := p "release" in
  _ramp r true.

(** [note_on] *)
Definition note_on (num_samples : Z) : result tensor :=
  let! _ := attack in
  let! _ := decay in
  let! att := attack in
  let! dec := decay in
  let out_ := att ++ dec in
  if (num_samples <=? Z.of_nat (length out_))%Z
  then Ok (Tensor.slice_to out_ num_samples)
  else
    let hold_samples := (num_samples - Z.of_nat (length out_))%Z in
    let! ones := Tensor.ones hold_samples in
    let! s := p "sustain" in
    Ok (out_ ++ map (fun v => v * s) ones).

(** [note_off] *)
Definition note_off (last_val : float) : result tensor :=
  let! rel := release in
  Ok (map (fun v => v * last_val) rel).

(** [_forward] *)
Definition _forward (note_on_duration : float) : result tensor :=
  do! assert (note_on_duration >=? T 0) in
  let! note_on_duration :=
    if note_on_duration ==? T 0
    then
      let! a := p "attack" in
      let! d := p "decay" in
      Ok (a + d)
    else Ok note_on_duration in
  let! num_samples :=
    TorchSynthModule.seconds_to_samples self note_on_duration in
  let! ADS := note_on num_samples in
  let! last_val := Tensor.last_item ADS in
  let! R := note_off last_val in
  Ok (ADS ++ R).
End Methods.

(** [_forward] on a module, with [self.p] the method of the base class. *)
Definition forward (self : TorchSynthModule.t) (note_on_duration : float)
  : result tensor :=
  _forward self (TorchSynthModule.p self) note_on_duration.
End TorchADSR.

(** ** torchmodule.py: TorchVCO and its subclasses *)

Module TorchVCO.
Local Open Scope float_scope.

(** The concrete classes: [TorchSineVCO], [TorchFmVCO],
    [TorchSquareSawVCO]. *)
Inductive kind : Set := Sine | Fm | SquareSaw.

(** An oscillator object: the base module, its class and the attribute
    [self.phase]. *)
Record t : Type := mk
  { base : TorchSynthModule.t;
    cls : kind;
    phase : float }.

Definition set_phase (self : t) (v : float) : t :=
  mk (base self) (cls self) v.

(** [TorchVCO.__init__], then the [shape] parameter that
    [TorchSquareSawVCO.__init__] adds.  [shape] is read for that class
    only. *)
Definition init (cls : kind) (shape midi_f0 mod_depth phase : float)
    (sample_rate buffer_size : Z) : result t :=
  let self := TorchSynthModule.init sample_rate buffer_size in
  let! r_pitch := ParameterRange.init (T 0) (T 127) "linear" in
  let! p_pitch := TorchParameter.new (Some midi_f0) "pitch" (Some r_pitch) (T 0) in
  let! r_depth := ParameterRange.init (T 0) (T 127) "linear" in
  let! p_depth := TorchParameter.new (Some mod_depth) "mod_depth" (Some r_depth) (T 0) in
  let! self := TorchSynthModule.add_parameters self [p_pitch; p_depth] in
  let self := mk self cls phase in
  match cls with
  | SquareSaw =>
      let! r_shape := ParameterRange.init (T 0) (T 1) "linear" in
      let! p_shape := TorchParameter.new (Some shape) "shape" (Some r_shape) (T 0) in
      let! m := TorchSynthModule.add_parameters (base self) [p_shape] in
      Ok (mk m cls phase)
  | Sine | Fm => Ok self
  end.

Section Methods.
(** The constant [SAMPLE_RATE] of defaults.py. *)
Variable SAMPLE_RATE : Z.
Variable cls : kind.
Variable p : string -> result float.

(** [make_control_as_frequency]: [TorchVCO]'s, and [TorchFmVCO]'s
    override. *)
Definition make_control_as_frequency (mod_signal : tensor)
  : result tensor :=
  match cls with
  | Sine | SquareSaw =>
      let! mod_depth := p "mod_depth" in
      let modulation := map (fun m => mod_depth * m) mod_signal in
      let! pitch := p "pitch" in
      let control_as_midi := map (fun m => pitch + m) modulation in
      Ok (map TorchUtil.midi_to_hz control_as_midi)
  | Fm =>
      let! pitch := p "pitch" in
      let f0_hz := TorchUtil.midi_to_hz pitch in
      let! mod_depth := p "mod_depth" in
      let fm_depth := mod_depth * f0_hz in
      let modulation_hz := map (fun m => fm_depth * m) mod_signal in
      Ok (map (fun m => f0_hz + m) modulation_hz)
  end.

(** [make_argument] *)
Definition make_argument (control_as_frequency : tensor) : tensor :=
  Tensor.cumsum
    (map (fun f => T 2 * Float.pi * f / Float.of_Z SAMPLE_RATE)
       control_as_frequency).

(** the property [partials_constant] of [TorchSquareSawVCO] *)
Definition partials_constant : result float :=
  let! pitch := p "pitch" in
  let! mod_depth := p "mod_depth" in
  let max_pitch := pitch + mod_depth in
  let max_f0 := TorchUtil.midi_to_hz max_pitch in
  Ok (T 12000 / (max_f0 * Float.log10 max_f0)).

(** [oscillator] of each class; the tensor operations are written sample by
    sample. *)
Definition oscillator (argument : tensor) : result tensor :=
  match cls with
  | Sine | Fm => Ok (map Float.cos argument)
  | SquareSaw =>
      let! pc := partials_constant in
      let square :=
        fun a => Float.tanh (Float.pi * pc * Float.sin a / T 2) in
      let! shape := p "shape" in
      Ok (map (fun a =>
                 (T 1 - shape / T 2) * square a
                 * (T 1 + shape * Float.cos a))
            argument)
  end.

(** [_forward]: the value or exception of the call, and the attribute
    [self.phase] when the call ends. *)
Definition _forward (self_phase : float) (mod_signal : tensor)
    (phase : float) : result tensor * float :=
  match assert (Tensor.all_ge mod_signal (T (-1))
                && Tensor.all_le mod_signal (T 1)) with
  | Raise e => (Raise e, self_phase)
  | Ok _ =>
      match make_control_as_frequency mod_signal with
      | Raise e => (Raise e, self_phase)
      | Ok control_as_frequency =>
          let cosine_argument :=
            map (fun a => a + phase) (make_argument control_as_frequency) in
          match Tensor.last_item cosine_argument with
          | Raise e => (Raise e, self_phase)
          | Ok last => (oscillator cosine_argument, last)
          end
      end
  end.
End Methods.

(** The writes that the oscillator inherits from the base class: the module
    part of the object is replaced. *)
Definition set_parameter (self : t) (parameter_id : string) (value : float)
  : result t :=
  let! m := TorchSynthModule.set_parameter (base self) parameter_id value in
  Ok (mk m (cls self) (phase self)).

Definition set_parameter_0to1 (self : t) (parameter_id : string)
    (value : float) : result t :=
  let! m := TorchSynthModule.set_parameter_0to1 (base self) parameter_id value in
  Ok (mk m (cls self) (phase self)).

(** [_forward] on an oscillator object, with [self.p] the method of the
    base class: the outcome of the call and the object after it. *)
Definition forward (SAMPLE_RATE : Z) (self : t) (mod_signal : tensor)
    (phase : float) : result tensor * t :=
  let '(out, ph) :=
    _forward SAMPLE_RATE (cls self) (TorchSynthModule.p (base self))
      (TorchVCO.phase self) mod_signal phase in
  (out, set_phase self ph).
End TorchVCO.

(** ** torchmodule.py: TorchVCA *)

Module TorchVCA.
Local Open Scope float_scope.

(** [_forward] *)
Definition _forward (control_in audio_in : tensor) : result tensor :=
  do! assert (Tensor.all_ge control_in (T 0)
              && Tensor.all_le control_in (T 1)) in
  expr_stmt
    (if Tensor.any_le audio_in (T (-1)) || Tensor.any_ge audio_in (T 1)
     then Some (TorchUtil.normalize audio_in) else None)
    (let audio_in :=
       TorchUtil.fix_length audio_in (Z.of_nat (length control_in)) in
     Tensor.mul control_in audio_in).
End TorchVCA.

(** ** Vocabulary of the statements *)

(** Parameter reads that give the values of a table: any [p] that returns
    the real value of each parameter, which is what the methods use
    [self.p] for. *)
Fixpoint reads (values : list (string * float)) (name : string)
  : result float :=
  match values with
  | [] => Raise KeyError
  | (k, v) :: rest => if String.eqb k name then Ok v else reads rest name
  end.

(** The reads of an ADSR module give the finite values [a d s r alpha], which
    lie in the ranges that [TorchADSR.__init__] declares. *)
Record adsr_reads (p : string -> result float) (a d s r alpha : R) : Prop :=
  { rd_attack : p "attack" = Ok (Fin a);
    rd_decay : p "decay" = Ok (Fin d);
    rd_sustain : p "sustain" = Ok (Fin s);
    rd_release : p "release" = Ok (Fin r);
    rd_alpha : p "alpha" = Ok (Fin alpha);
    rg_attack : (0 <= a <= 2)%R;
    rg_decay : (0 <= d <= 2)%R;
    rg_sustain : (0 <= s <= 1)%R;
    rg_release : (0 <= r <= 5)%R;
    rg_alpha : (0.1 <= alpha <= 6)%R }.

(** The duration that [TorchADSR._forward] turns into samples: attack plus
    decay when the note-on duration is zero. *)
Definition effective (a d nod : R) : R :=
  if Float.Reqb nod 0 then (a + d)%R else nod.

(** The test that [TorchVCO._forward] asserts of the modulation signal. *)
Definition valid_mod (mod_signal : tensor) : bool :=
  Tensor.all_ge mod_signal (T (-1)) && Tensor.all_le mod_signal (T 1).

(** The tensor [cosine_argument] of [TorchVCO._forward]. *)
Definition cosine_argument (SAMPLE_RATE : Z) (control_as_frequency : tensor)
    (phase : float) : tensor :=
  map (fun a => (a + phase)%fl)
    (TorchVCO.make_argument SAMPLE_RATE control_as_frequency).

(** The value of [exp2(log2(x) / k)] for a finite [x >= 0]: the [-inf] of
    [log2(0)] gives 0. *)
Definition curve_unit (k x : R) : R :=
  if Req_dec_T x 0 then 0%R else exp (ln x / k).

(** Every sample of a tensor is finite and lies in [[lo, hi]]. *)
Definition samples_in (lo hi : R) (x : tensor) : Prop :=
  Forall (fun v => exists w : R, v = Fin w /\ (lo <= w <= hi)%R) x.

(** The sample of index [i] that [TorchADSR._ramp] computes. *)
Definition ramp_sample (self : TorchSynthModule.t) (duration : float)
    (inverse : bool) (alpha : float) (i : nat) : float :=
  let t := (Float.of_Z (Z.of_nat i)
            / Float.of_Z (TorchSynthModule.sample_rate self))%fl in
  let ramp := (t * (T 1 / duration))%fl in
  Float.pow (if inverse then (T 1 - ramp)%fl else ramp) alpha.

(** The number of samples of a finite duration. *)
Definition samples_of (self : TorchSynthModule.t) (seconds : R) : Z :=
  Float.round_half_even (seconds * IZR (TorchSynthModule.sample_rate self)).

(** The frequency of a finite MIDI pitch, as [midi_to_hz] computes it. *)
Definition hz (midi : R) : R := (440 * Rpower 2 ((midi - 69) / 12))%R.

(** * Properties *)

(** ** Tests on reals and rounding *)

Section RealTests.
Local Open Scope R_scope.
Lemma Rleb_true a b : a <= b -> Float.Rleb a b = true.
Proof. intros H. unfold Float.Rleb. destruct (Rle_dec a b); [reflexivity | contradiction]. Qed.
Lemma Rleb_false a b : b < a -> Float.Rleb a b = false.
Proof. intros H. unfold Float.Rleb. destruct (Rle_dec a b); [lra | reflexivity]. Qed.
Lemma Rltb_true a b : a < b -> Float.Rltb a b = true.
Proof. intros H. unfold Float.Rltb. destruct (Rlt_dec a b); [reflexivity | contradiction]. Qed.
Lemma Rltb_false a b : b <= a -> Float.Rltb a b = false.
Proof. intros H. unfold Float.Rltb. destruct (Rlt_dec a b); [lra | reflexivity]. Qed.
Lemma Reqb_true a b : a = b -> Float.Reqb a b = true.
Proof. intros H. unfold Float.Reqb. destruct (Req_dec_T a b); [reflexivity | contradiction]. Qed.
Lemma Reqb_false a b : a <> b -> Float.Reqb a b = false.
Proof. intros H. unfold Float.Reqb. destruct (Req_dec_T a b); [contradiction | reflexivity]. Qed.

Lemma Int_part_unique (r : R) (z : Z) :
  IZR z <= r -> r < IZR z + 1 -> Int_part r = z.
Proof.
  intros H1 H2. unfold Int_part.
  assert (E : (z + 1)%Z = up r)
    by (apply up_tech; [exact H1 | rewrite plus_IZR; exact H2]).
  lia.
Qed.

Lemma Int_part_bounds (r : R) : IZR (Int_part r) <= r < IZR (Int_part r) + 1.
Proof.
  destruct (base_Int_part r) as [H1 H2]. split; lra.
Qed.

Lemma round_half_even_IZR z : Float.round_half_even (IZR z) = z.
Proof.
  unfold Float.round_half_even.
  rewrite (Int_part_unique (IZR z) z) by lra.
  rewrite Rltb_true by lra. reflexivity.
Qed.

(** rounding stays within one half *)
Lemma round_half_even_near (x : R) :
  IZR (Float.round_half_even x) - 1 / 2 <= x <= IZR (Float.round_half_even x) + 1 / 2.
Proof.
  unfold Float.round_half_even.
  pose proof (Int_part_bounds x) as [H1 H2].
  unfold Float.Rltb.
  destruct (Rlt_dec (x - IZR (Int_part x)) (1 / 2)); [lra |].
  destruct (Rlt_dec (1 / 2) (x - IZR (Int_part x))).
  - rewrite plus_IZR. lra.
  - destruct (Z.even (Int_part x)); [lra | rewrite plus_IZR; lra].
Qed.

Lemma round_half_even_nonneg (x : R) : 0 <= x -> (0 <= Float.round_half_even x)%Z.
Proof.
  intros Hx. pose proof (round_half_even_near x) as [_ H].
  apply le_IZR. 
  destruct (Z_lt_le_dec (Float.round_half_even x) 0) as [Hn | Hn]; [| apply IZR_le; exact Hn].
  assert (IZR (Float.round_half_even x) <= -1) by (apply IZR_le; lia). lra.
Qed.

Lemma round_half_even_unique (x : R) (z : Z) :
  IZR z - 1 / 2 < x < IZR z + 1 / 2 -> Float.round_half_even x = z.
Proof.
  intros [H1 H2]. unfold Float.round_half_even.
  destruct (Rle_dec (IZR z) x) as [Hle | Hgt].
  - rewrite (Int_part_unique x z) by lra.
    rewrite Rltb_true by lra. reflexivity.
  - assert (E : Int_part x = (z - 1)%Z).
    { apply Int_part_unique; rewrite minus_IZR; lra. }
    rewrite E. rewrite minus_IZR.
    rewrite Rltb_false by lra. rewrite Rltb_true by lra. lia.
Qed.

Lemma Int_part_mono (x y : R) : x <= y -> (Int_part x <= Int_part y)%Z.
Proof.
  intros H. pose proof (Int_part_bounds x) as [Hx _].
  pose proof (Int_part_bounds y) as [_ Hy].
  destruct (Z_lt_le_dec (Int_part y) (Int_part x)) as [Hlt | Hle]; [| exact Hle].
  assert (IZR (Int_part y) + 1 <= IZR (Int_part x))
    by (rewrite <- plus_IZR; apply IZR_le; lia).
  lra.
Qed.

Lemma round_half_even_mono (x y : R) :
  x <= y -> (Float.round_half_even x <= Float.round_half_even y)%Z.
Proof.
  intros H. pose proof (Int_part_mono x y H) as Hf.
  pose proof (Int_part_bounds x) as [Hx1 Hx2].
  pose proof (Int_part_bounds y) as [Hy1 Hy2].
  unfold Float.round_half_even, Float.Rltb.
  destruct (Z.eq_dec (Int_part x) (Int_part y)) as [E | NE].
  - rewrite E in *.
    destruct (Rlt_dec (x - IZR (Int_part y)) (1 / 2));
      destruct (Rlt_dec (y - IZR (Int_part y)) (1 / 2));
      destruct (Rlt_dec (1 / 2) (x - IZR (Int_part y)));
      destruct (Rlt_dec (1 / 2) (y - IZR (Int_part y)));
      destruct (Z.even (Int_part y)); try lia; lra.
  - destruct (Rlt_dec (x - IZR (Int_part x)) (1 / 2));
      destruct (Rlt_dec (y - IZR (Int_part y)) (1 / 2));
      destruct (Rlt_dec (1 / 2) (x - IZR (Int_part x)));
      destruct (Rlt_dec (1 / 2) (y - IZR (Int_part y)));
      destruct (Z.even (Int_part x)); destruct (Z.even (Int_part y)); lia.
Qed.
End RealTests.

(** ** The ADSR envelope, for reads that give values *)


Lemma last_item_app (x : tensor) (v : float) :
  Tensor.last_item (x ++ [v]) = Ok v.
Proof.
  unfold Tensor.last_item. rewrite rev_unit. reflexivity.
Qed.

Lemma last_item_some (x : tensor) :
  x <> [] -> exists v, Tensor.last_item x = Ok v.
Proof.
  intros H. destruct (exists_last H) as [x' [v E]]. subst x.
  exists v. apply last_item_app.
Qed.

Section ADSR.
Variable self : TorchSynthModule.t.
Variable p : string -> result float.
Variables a d s r alpha : R.
Hypothesis Hreads : adsr_reads p a d s r alpha.
Hypothesis Hrate : (0 < TorchSynthModule.sample_rate self)%Z.

Local Open Scope R_scope.

Lemma samples_of_nonneg (x : R) : 0 <= x -> (0 <= samples_of self x)%Z.
Proof.
  intros Hx. apply round_half_even_nonneg.
  apply Rmult_le_pos; [exact Hx |]. apply IZR_le. lia.
Qed.

Lemma samples_of_mono (x y : R) :
  x <= y -> (samples_of self x <= samples_of self y)%Z.
Proof.
  intros Hxy. apply round_half_even_mono.
  apply Rmult_le_compat_r; [apply IZR_le; lia | exact Hxy].
Qed.

Lemma ramp_ok (dur : R) (inverse : bool) :
  0 <= dur ->
  exists rmp, TorchADSR._ramp self p (Fin dur) inverse = Ok rmp
              /\ length rmp = Z.to_nat (samples_of self dur).
Proof.
  intros Hdur. pose proof (samples_of_nonneg dur Hdur) as Hn.
  unfold TorchADSR._ramp, TorchSynthModule.seconds_to_samples. simpl.
  fold (samples_of self dur). unfold Tensor.arange.
  destruct (Z.ltb_spec (samples_of self dur) 0) as [Hneg | _]; [lia |].
  simpl. rewrite (rd_alpha _ _ _ _ _ _ Hreads). simpl.
  eexists. split; [reflexivity |].
  destruct inverse; rewrite !length_map, length_seq; reflexivity.
Qed.

Lemma attack_ok :
  exists att, TorchADSR.attack self p = Ok att
              /\ length att = Z.to_nat (samples_of self a).
Proof.
  unfold TorchADSR.attack. rewrite (rd_attack _ _ _ _ _ _ Hreads). simpl.
  apply ramp_ok. apply (rg_attack _ _ _ _ _ _ Hreads).
Qed.

Lemma decay_ok :
  exists dec, TorchADSR.decay self p = Ok dec
              /\ length dec = Z.to_nat (samples_of self d).
Proof.
  unfold TorchADSR.decay. rewrite (rd_decay _ _ _ _ _ _ Hreads). simpl.
  destruct (ramp_ok d true) as [rmp [E L]];
    [apply (rg_decay _ _ _ _ _ _ Hreads) |].
  rewrite E. simpl. rewrite (rd_sustain _ _ _ _ _ _ Hreads). simpl.
  eexists. split; [reflexivity |]. rewrite length_map. exact L.
Qed.

Lemma release_ok :
  exists rel, TorchADSR.release self p = Ok rel
              /\ length rel = Z.to_nat (samples_of self r).
Proof.
  unfold TorchADSR.release. rewrite (rd_release _ _ _ _ _ _ Hreads). simpl.
  apply ramp_ok. apply (rg_release _ _ _ _ _ _ Hreads).
Qed.

(** [note_on]: truncation of attack and decay, or a hold at sustain. *)
Lemma note_on_eq (att dec : tensor) (n : Z) :
  TorchADSR.attack self p = Ok att ->
  TorchADSR.decay self p = Ok dec ->
  TorchADSR.note_on self p n =
    if (n <=? Z.of_nat (length (att ++ dec)))%Z
    then Ok (Tensor.slice_to (att ++ dec) n)
    else Ok ((att ++ dec)
             ++ map (fun v => (v * Fin s)%fl)
                  (repeat (T 1) (Z.to_nat (n - Z.of_nat (length (att ++ dec)))))).
Proof.
  intros Ha Hd. unfold TorchADSR.note_on. rewrite Ha, Hd. simpl.
  destruct (Z.leb_spec n (Z.of_nat (length (att ++ dec)))) as [Hle | Hgt];
    [reflexivity |].
  unfold Tensor.ones.
  destruct (Z.ltb_spec (n - Z.of_nat (length (att ++ dec))) 0) as [Hneg | _];
    [lia |].
  simpl. rewrite (rd_sustain _ _ _ _ _ _ Hreads). reflexivity.
Qed.

Lemma note_on_length (att dec ADS : tensor) (n : Z) :
  TorchADSR.attack self p = Ok att ->
  TorchADSR.decay self p = Ok dec ->
  (0 <= n)%Z ->
  TorchADSR.note_on self p n = Ok ADS ->
  length ADS = Z.to_nat n.
Proof.
  intros Ha Hd Hn. rewrite (note_on_eq att dec n Ha Hd).
  destruct (Z.leb_spec n (Z.of_nat (length (att ++ dec)))) as [Hle | Hgt];
    intros E; injection E as <-.
  - unfold Tensor.slice_to.
    destruct (Z.ltb_spec n 0) as [Hneg | _]; [lia |].
    rewrite length_firstn. lia.
  - rewrite length_app, length_map, repeat_length. lia.
Qed.

Lemma forward_eq (nod : R) :
  0 <= nod ->
  TorchADSR._forward self p (Fin nod) =
    (let! ADS := TorchADSR.note_on self p (samples_of self (effective a d nod)) in
     let! last_val := Tensor.last_item ADS in
     let! R := TorchADSR.note_off self p last_val in
     Ok (ADS ++ R)).
Proof.
  intros Hnod. unfold TorchADSR._forward, effective.
  unfold Float.ge, Float.le, T. rewrite Rleb_true by exact Hnod. simpl.
  destruct (Float.Reqb nod 0).
  - rewrite (rd_attack _ _ _ _ _ _ Hreads). simpl.
    rewrite (rd_decay _ _ _ _ _ _ Hreads). reflexivity.
  - reflexivity.
Qed.

Lemma effective_nonneg (nod : R) : 0 <= nod -> 0 <= effective a d nod.
Proof.
  intros Hnod. unfold effective.
  pose proof (rg_attack _ _ _ _ _ _ Hreads).
  pose proof (rg_decay _ _ _ _ _ _ Hreads).
  destruct (Float.Reqb nod 0); lra.
Qed.

Lemma note_off_eq (rel : tensor) (last_val : float) :
  TorchADSR.release self p = Ok rel ->
  TorchADSR.note_off self p last_val
  = Ok (map (fun v => (v * last_val)%fl) rel).
Proof.
  intros Hr. unfold TorchADSR.note_off. rewrite Hr. reflexivity.
Qed.
End ADSR.

(** ** seconds_to_samples *)

Lemma seconds_to_samples_total (self : TorchSynthModule.t) (seconds : float) :
  TorchSynthModule.seconds_to_samples self seconds
  = Ok (Float.round_int
          (seconds * Float.of_Z (TorchSynthModule.sample_rate self))%fl).
Proof. reflexivity. Qed.




(** ** ParameterRange: the round trip *)

(** Decide the tests on reals that stand in the goal. *)
Ltac real_tests :=
  repeat first
    [ rewrite Rleb_true by (try nra; lra)
    | rewrite Rleb_false by (try nra; lra)
    | rewrite Rltb_true by (try nra; lra)
    | rewrite Rltb_false by (try nra; lra)
    | rewrite Reqb_true by (try nra; lra)
    | rewrite Reqb_false by (try nra; lra) ];
  cbn [negb bind assert andb orb].

Lemma ParameterRange_init_cases (mn mx : float) (c : string)
    (rng : ParameterRange.t) :
  ParameterRange.init mn mx c = Ok rng ->
  rng = ParameterRange.mk mn mx c (T 1)
  \/ rng = ParameterRange.mk mn mx c (T 0.5)
  \/ rng = ParameterRange.mk mn mx c (T 2).
Proof.
  unfold ParameterRange.init.
  destruct (String.eqb c "linear"); [intros [= <-]; auto |].
  destruct (String.eqb c "log"); [intros [= <-]; auto |].
  destruct (String.eqb c "exp"); [intros [= <-]; auto |].
  discriminate.
Qed.

Section RoundTrip.
Local Open Scope R_scope.
Variables mn mx : R.
Hypothesis Hrange : mn < mx.



End RoundTrip.





(** ** The amplifier *)

Lemma tensor_mul_length (x y r : tensor) :
  Tensor.mul x y = Ok r -> length r = length x.
Proof.
  revert y r. induction x as [| a x IH]; intros [| b y] r; simpl;
    try discriminate.
  - intros [= <-]. reflexivity.
  - destruct (Tensor.mul x y) as [r' |] eqn:E; simpl; [| discriminate].
    intros [= <-]. simpl. f_equal. apply (IH y). exact E.
Qed.

(** What [TorchVCA._forward] multiplies: the audio as it was passed, brought
    to the length of the control signal. *)
Lemma vca_forward_eq (control_in audio_in : tensor) :
  TorchVCA._forward control_in audio_in =
    (do! assert (Tensor.all_ge control_in (T 0)
                 && Tensor.all_le control_in (T 1)) in
     Tensor.mul control_in
       (TorchUtil.fix_length audio_in (Z.of_nat (length control_in)))).
Proof. reflexivity. Qed.

Lemma vca_rejects_control (control_in audio_in : tensor) (x : R) :
  In (Fin x) control_in ->
  (x < 0 \/ 1 < x)%R ->
  TorchVCA._forward control_in audio_in = Raise AssertionError.
Proof.
  intros Hin Hx. rewrite vca_forward_eq.
  assert (E : Tensor.all_ge control_in (T 0)
              && Tensor.all_le control_in (T 1) = false).
  { apply andb_false_iff. unfold Tensor.all_ge, Tensor.all_le.
    destruct Hx as [Hneg | Hbig]; [left | right];
      apply not_true_is_false; intros Hall;
      rewrite forallb_forall in Hall; specialize (Hall _ Hin);
      unfold Float.ge, Float.le, T in Hall; simpl in Hall;
      [rewrite Rleb_false in Hall by lra
      | rewrite Rleb_false in Hall by lra]; discriminate Hall. }
  rewrite E. reflexivity.
Qed.

Lemma vca_output_length (control_in audio_in out : tensor) :
  TorchVCA._forward control_in audio_in = Ok out ->
  length out = length control_in.
Proof.
  rewrite vca_forward_eq.
  destruct (assert _); simpl; [| discriminate].
  apply tensor_mul_length.
Qed.

(** C5 at a control signal [1.0] and an audio signal [2.0]: the rescaled
    audio would be [1.0], but the result of [normalize] is dropped and the
    output is [1.0 * 2.0], of peak 2. *)
Theorem vca_drops_normalized_audio :
  TorchVCA._forward [T 1] [T 2] = Ok [T 2]
  /\ TorchUtil.normalize [T 2] = [T 1].
Proof.
  split.
  - rewrite vca_forward_eq. unfold Tensor.all_ge, Tensor.all_le, T. simpl.
    unfold Float.ge, Float.le. real_tests. simpl.
    do 3 f_equal. lra.
  - unfold TorchUtil.normalize, TorchUtil.peak, T. simpl.
    rewrite Rabs_right by lra. real_tests. simpl. real_tests.
    do 2 f_equal. field.
Qed.

(** ** Normalised values and the read after a write *)

Lemma ln_nonpos (x : R) : (0 < x <= 1)%R -> (ln x <= 0)%R.
Proof.
  intros [H0 H1]. destruct (Req_dec_T x 1) as [E | N].
  - subst x. rewrite ln_1. lra.
  - left. rewrite <- ln_1. apply ln_increasing; lra.
Qed.

Lemma Rpower_unit_interval (q k : R) :
  (0 < q <= 1)%R -> (0 < k)%R -> (0 < Rpower q k <= 1)%R.
Proof.
  intros Hq Hk. unfold Rpower. split; [apply exp_pos |].
  pose proof (ln_nonpos q Hq) as Hln.
  rewrite <- exp_0.
  destruct (Req_dec_T (k * ln q) 0) as [E | N]; [rewrite E; lra |].
  left. apply exp_increasing. nra.
Qed.

Section Normalised.
Local Open Scope R_scope.
Variables mn mx : R.
Hypothesis Hrange : mn < mx.

Lemma quotient_unit_interval (v : R) :
  mn <= v <= mx -> 0 <= (v + - mn) / (mx + - mn) <= 1.
Proof.
  intros Hv.
  assert (Hpos : 0 < / (mx + - mn)) by (apply Rinv_0_lt_compat; lra).
  unfold Rdiv. split; [nra |].
  replace 1 with ((mx + - mn) * / (mx + - mn)) by (field; lra). nra.
Qed.

(** [to_0to1] gives a finite value of [[0,1]], and [from_0to1] takes it back:
    the write [set_with_range] followed by the read [get_in_range]. *)
Lemma to_0to1_then_from_0to1 (c : string) (rng : ParameterRange.t) (v : R) :
  ParameterRange.init (Fin mn) (Fin mx) c = Ok rng ->
  mn <= v <= mx ->
  exists y : R,
    ParameterRange.to_0to1 rng (Fin v) = Ok (Fin y)
    /\ 0 <= y <= 1
    /\ ParameterRange.from_0to1 rng (Fin y) = Ok (Fin v).
Proof.
  intros Hinit Hv.
  pose proof (quotient_unit_interval v Hv) as Hq.
  set (q := (v + - mn) / (mx + - mn)) in *.
  assert (Hback : mn + (mx + - mn) * q = v) by (unfold q; field; lra).
  assert (Hcurved : forall k, 0 < k -> k <> 1 ->
    exists y : R,
      ParameterRange.to_0to1 (ParameterRange.mk (Fin mn) (Fin mx) c (Fin k))
        (Fin v) = Ok (Fin y)
      /\ 0 <= y <= 1
      /\ ParameterRange.from_0to1
           (ParameterRange.mk (Fin mn) (Fin mx) c (Fin k)) (Fin y)
         = Ok (Fin v)).
  { intros k Hk Hk1.
    unfold ParameterRange.to_0to1, ParameterRange.from_0to1, T. simpl.
    real_tests. simpl. real_tests. fold q.
    destruct (Req_dec_T q 0) as [E0 | N0].
    - rewrite E0 in *. real_tests. exists 0.
      split; [reflexivity |]. split; [lra |].
      real_tests. unfold Float.log2. real_tests. simpl. real_tests. simpl.
      do 2 f_equal. lra.
    - assert (Hq0 : 0 < q <= 1) by lra.
      pose proof (Rpower_unit_interval q k Hq0 Hk) as Hy.
      real_tests. exists (Rpower q k).
      split; [reflexivity |]. split; [lra |].
      real_tests. unfold Float.log2. real_tests. simpl. real_tests. simpl.
      do 2 f_equal.
      assert (Hln2 : 0 < ln 2) by (rewrite <- ln_1; apply ln_increasing; lra).
      replace (Rpower 2 (ln (Rpower q k) / ln 2 / k)) with q; [exact Hback |].
      rewrite ln_Rpower. unfold Rpower.
      replace (k * ln q / ln 2 / k * ln 2) with (ln q) by (field; lra).
      symmetry. apply exp_ln. lra. }
  destruct (ParameterRange_init_cases _ _ _ _ Hinit) as [-> | [-> | ->]].
  - exists q. unfold ParameterRange.to_0to1, ParameterRange.from_0to1, T.
    simpl. real_tests. simpl. real_tests. fold q.
    split; [reflexivity |]. split; [exact Hq |].
    real_tests. do 2 f_equal. exact Hback.
  - apply Hcurved; lra.
  - apply Hcurved; lra.
Qed.
End Normalised.

Lemma set_with_range_then_get_in_range
    (prm : TorchParameter.t) (rng : ParameterRange.t)
    (mn mx : R) (c : string) (v : R) :
  TorchParameter.parameter_range prm = Some rng ->
  ParameterRange.init (Fin mn) (Fin mx) c = Ok rng ->
  (mn < mx)%R ->
  (mn <= v <= mx)%R ->
  exists prm' : TorchParameter.t,
    TorchParameter.set_with_range prm (Fin v) = Ok prm'
    /\ ParameterRange.to_0to1 rng (Fin v) = Ok (TorchParameter.data prm')
    /\ TorchParameter.get_in_range prm' = Ok (Fin v).
Proof.
  intros Hrng Hinit Hlt Hv.
  destruct (to_0to1_then_from_0to1 mn mx Hlt c rng v Hinit Hv)
    as [y [Hto [_ Hfrom]]].
  unfold TorchParameter.set_with_range, TorchParameter.get_in_range.
  rewrite Hrng, Hto. simpl.
  eexists. split; [reflexivity |]. simpl. split; [reflexivity | exact Hfrom].
Qed.

Lemma new_ok (name c : string) (rng : ParameterRange.t) (mn mx v : R)
    (d0 : float) :
  ParameterRange.init (Fin mn) (Fin mx) c = Ok rng ->
  (mn < mx)%R ->
  (mn <= v <= mx)%R ->
  exists y : R,
    TorchParameter.new (Some (Fin v)) name (Some rng) d0
    = Ok (TorchParameter.mk (Fin y) (Some rng) name).
Proof.
  intros Hinit Hlt Hv.
  destruct (to_0to1_then_from_0to1 mn mx Hlt c rng v Hinit Hv)
    as [y [Hto _]].
  exists y. unfold TorchParameter.new. rewrite Hto. reflexivity.
Qed.

(** ** The reads and writes of the base class *)

Lemma p_raises (self : TorchSynthModule.t) (name : string) :
  TorchSynthModule.p self name
  = match TorchSynthModule.torchparameters self !! name with
    | Some _ => Raise AttributeError
    | None => Raise KeyError
    end.
Proof.
  unfold TorchSynthModule.p, TorchSynthModule.getitem.
  destruct (TorchSynthModule.torchparameters self !! name); reflexivity.
Qed.

Lemma p_never_returns (self : TorchSynthModule.t) (name : string) (v : float) :
  TorchSynthModule.p self name <> Ok v.
Proof.
  rewrite p_raises.
  destruct (TorchSynthModule.torchparameters self !! name); discriminate.
Qed.

Lemma set_parameter_raises (self : TorchSynthModule.t) (name : string)
    (value : float) :
  TorchSynthModule.set_parameter self name value
  = match TorchSynthModule.torchparameters self !! name with
    | Some _ => Raise AttributeError
    | None => Raise KeyError
    end.
Proof.
  unfold TorchSynthModule.set_parameter, TorchSynthModule.getitem.
  destruct (TorchSynthModule.torchparameters self !! name); reflexivity.
Qed.

Lemma add_parameters_fresh (self : TorchSynthModule.t)
    (prm : TorchParameter.t) (rest : list TorchParameter.t) :
  TorchSynthModule.torchparameters self !! TorchParameter.parameter_name prm
  = None ->
  TorchSynthModule.add_parameters self (prm :: rest)
  = TorchSynthModule.add_parameters
      (TorchSynthModule.setitem self (TorchParameter.parameter_name prm) prm)
      rest.
Proof.
  intros H. simpl. rewrite bool_decide_eq_true_2 by exact H. reflexivity.
Qed.

(** [TorchADSR.__init__] with values of the declared ranges builds a module
    that holds the five parameters. *)
Lemma adsr_init_ok (a d s r alpha : R) (sample_rate buffer_size : Z) :
  (0 <= a <= 2)%R -> (0 <= d <= 2)%R -> (0 <= s <= 1)%R ->
  (0 <= r <= 5)%R -> (0.1 <= alpha <= 6)%R ->
  exists m : TorchSynthModule.t,
    TorchADSR.init (Fin a) (Fin d) (Fin s) (Fin r) (Fin alpha)
      sample_rate buffer_size = Ok m
    /\ TorchSynthModule.sample_rate m = sample_rate
    /\ is_Some (TorchSynthModule.torchparameters m !! "attack")
    /\ is_Some (TorchSynthModule.torchparameters m !! "decay")
    /\ is_Some (TorchSynthModule.torchparameters m !! "sustain")
    /\ is_Some (TorchSynthModule.torchparameters m !! "release")
    /\ is_Some (TorchSynthModule.torchparameters m !! "alpha").
Proof.
  intros Ha Hd Hs Hr Halpha. unfold TorchADSR.init.
  change (ParameterRange.init (T 0) (T 2) "log")
    with (Ok (ParameterRange.mk (Fin 0) (Fin 2) "log" (Fin 0.5))).
  change (ParameterRange.init (T 0) (T 1) "linear")
    with (Ok (ParameterRange.mk (Fin 0) (Fin 1) "linear" (Fin 1))).
  change (ParameterRange.init (T 0) (T 5) "log")
    with (Ok (ParameterRange.mk (Fin 0) (Fin 5) "log" (Fin 0.5))).
  change (ParameterRange.init (T 0.1) (T 6) "linear")
    with (Ok (ParameterRange.mk (Fin 0.1) (Fin 6) "linear" (Fin 1))).
  cbn [bind]. unfold T.
  destruct (new_ok "attack" "log"
              (ParameterRange.mk (Fin 0) (Fin 2) "log" (Fin 0.5))
              0 2 a (Fin 0) eq_refl ltac:(lra) Ha) as [ya ->].
  destruct (new_ok "decay" "log"
              (ParameterRange.mk (Fin 0) (Fin 2) "log" (Fin 0.5))
              0 2 d (Fin 0) eq_refl ltac:(lra) Hd) as [yd ->].
  destruct (new_ok "sustain" "linear"
              (ParameterRange.mk (Fin 0) (Fin 1) "linear" (Fin 1))
              0 1 s (Fin 0) eq_refl ltac:(lra) Hs) as [ys ->].
  destruct (new_ok "release" "log"
              (ParameterRange.mk (Fin 0) (Fin 5) "log" (Fin 0.5))
              0 5 r (Fin 0) eq_refl ltac:(lra) Hr) as [yr ->].
  destruct (new_ok "alpha" "linear"
              (ParameterRange.mk (Fin 0.1) (Fin 6) "linear" (Fin 1))
              0.1 6 alpha (Fin 0) eq_refl ltac:(lra) Halpha) as [yal ->].
  cbn [bind].
  repeat (rewrite add_parameters_fresh
            by (cbn [TorchParameter.parameter_name TorchSynthModule.setitem
                     TorchSynthModule.torchparameters TorchSynthModule.init];
                simplify_map_eq; reflexivity)).
  cbn [TorchSynthModule.add_parameters TorchParameter.parameter_name].
  eexists. split; [reflexivity |].
  cbn [TorchSynthModule.setitem TorchSynthModule.torchparameters
       TorchSynthModule.sample_rate TorchSynthModule.init].
  split; [reflexivity |].
  repeat split; simplify_map_eq; eauto.
Qed.

(** C1 on the code: for every module whose registry holds [name], and every
    value, [set_parameter(name, value)] raises [AttributeError] and stores
    nothing: it calls a method [to_0to1] on the parameter, and the class
    [TorchParameter] has [set_with_range] and no [to_0to1].  The read [p]
    calls [from_0to1] on the parameter and raises likewise. *)
Theorem set_parameter_stores_nothing
    (self : TorchSynthModule.t) (name : string) (prm : TorchParameter.t)
    (value : float) :
  TorchSynthModule.torchparameters self !! name = Some prm ->
  TorchSynthModule.set_parameter self name value = Raise AttributeError
  /\ TorchSynthModule.p self name = Raise AttributeError.
Proof.
  intros H. rewrite set_parameter_raises, p_raises, H. split; reflexivity.
Qed.

Lemma set_parameter_stores_nothing_witness :
  exists m : TorchSynthModule.t,
    TorchADSR.init (Fin 0.25) (Fin 0.25) (Fin 0.5) (Fin 0.5) (Fin 3)
      44100 512 = Ok m
    /\ TorchSynthModule.set_parameter m "sustain" (T 0.25)
       = Raise AttributeError
    /\ TorchSynthModule.p m "sustain" = Raise AttributeError.
Proof.
  destruct (adsr_init_ok 0.25 0.25 0.5 0.5 3 44100 512)
    as [m [Hm [_ [_ [_ [[prm Hs] _]]]]]]; try lra.
  exists m. split; [exact Hm |].
  apply (set_parameter_stores_nothing m "sustain" prm (T 0.25)). exact Hs.
Defined.

(** ** The envelope and the oscillators on the module as it is *)

Lemma adsr_forward_never_returns (self : TorchSynthModule.t) (nod : float)
    (out : tensor) :
  TorchADSR.forward self nod <> Ok out.
Proof.
  unfold TorchADSR.forward, TorchADSR._forward.
  destruct (assert (nod >=? T 0)%fl); simpl; [| discriminate].
  assert (Hp : exists e, TorchSynthModule.p self "attack" = Raise e).
  { rewrite p_raises.
    destruct (TorchSynthModule.torchparameters self !! "attack"); eauto. }
  destruct Hp as [e Hp].
  destruct (nod ==? T 0)%fl; simpl.
  - rewrite Hp. discriminate.
  - unfold TorchADSR.note_on, TorchADSR.attack. rewrite Hp. discriminate.
Qed.

Lemma adsr_forward_raises (self : TorchSynthModule.t) (nod : R) :
  is_Some (TorchSynthModule.torchparameters self !! "attack") ->
  (0 <= nod)%R ->
  TorchADSR.forward self (Fin nod) = Raise AttributeError.
Proof.
  intros [prm Hprm] Hnod.
  assert (Hp : TorchSynthModule.p self "attack" = Raise AttributeError)
    by (rewrite p_raises, Hprm; reflexivity).
  unfold TorchADSR.forward, TorchADSR._forward.
  unfold Float.ge, Float.le, T. rewrite Rleb_true by exact Hnod. simpl.
  destruct (Float.Reqb nod 0); simpl.
  - rewrite Hp. reflexivity.
  - unfold TorchADSR.note_on, TorchADSR.attack. rewrite Hp. reflexivity.
Qed.

(** ** The shape of the envelope, for reads that give values *)

Lemma last_item_repeat_scaled (x : tensor) (s : float) (k : nat) :
  (0 < k)%nat ->
  Tensor.last_item (x ++ map (fun v => (v * s)%fl) (repeat (T 1) k))
  = Ok (T 1 * s)%fl.
Proof.
  intros Hk. destruct k as [| k]; [lia |].
  replace (repeat (T 1) (S k)) with (repeat (T 1) k ++ [T 1])
    by (rewrite <- repeat_cons; reflexivity).
  rewrite map_app. simpl. rewrite app_assoc. apply last_item_app.
Qed.

Section EnvelopeShape.
Variable self : TorchSynthModule.t.
Variable p : string -> result float.
Variables a d s r alpha : R.
Hypothesis Hreads : adsr_reads p a d s r alpha.
Hypothesis Hrate : (0 < TorchSynthModule.sample_rate self)%Z.
Variables att dec rel : tensor.
Hypothesis Hatt : TorchADSR.attack self p = Ok att.
Hypothesis Hdec : TorchADSR.decay self p = Ok dec.
Hypothesis Hrel : TorchADSR.release self p = Ok rel.
Variable nod : R.
Hypothesis Hnod : (0 <= nod)%R.

Let n : Z := samples_of self (effective a d nod).

Lemma n_nonneg : (0 <= n)%Z.
Proof.
  apply (samples_of_nonneg self Hrate).
  apply (effective_nonneg p a d s r alpha Hreads). exact Hnod.
Qed.

(** No sample: the slice is empty and its last element does not exist. *)
Lemma forward_no_sample :
  n = 0%Z ->
  TorchADSR.note_on self p n = Ok []
  /\ TorchADSR._forward self p (Fin nod) = Raise IndexError.
Proof.
  intros Hn.
  assert (E : TorchADSR.note_on self p n = Ok []).
  { rewrite (note_on_eq self p a d s r alpha Hreads att dec n Hatt Hdec).
    rewrite Hn.
    destruct (Z.leb_spec 0 (Z.of_nat (length (att ++ dec)))); [| lia].
    reflexivity. }
  split; [exact E |].
  rewrite (forward_eq self p a d s r alpha Hreads nod Hnod).
  fold n. rewrite E. reflexivity.
Qed.

(** Early release: attack and decay are cut after [n] samples and the
    release is scaled by the last sample kept. *)
Lemma forward_truncated :
  (1 <= n <= Z.of_nat (length (att ++ dec)))%Z ->
  exists last_val : float,
    nth_error (att ++ dec) (Z.to_nat n - 1) = Some last_val
    /\ TorchADSR._forward self p (Fin nod)
       = Ok (firstn (Z.to_nat n) (att ++ dec)
             ++ map (fun v => (v * last_val)%fl) rel).
Proof.
  intros [Hn1 Hn2].
  assert (E : TorchADSR.note_on self p n
              = Ok (firstn (Z.to_nat n) (att ++ dec))).
  { rewrite (note_on_eq self p a d s r alpha Hreads att dec n Hatt Hdec).
    destruct (Z.leb_spec n (Z.of_nat (length (att ++ dec)))); [| lia].
    unfold Tensor.slice_to. destruct (Z.ltb_spec n 0); [lia | reflexivity]. }
  assert (Hlen : length (firstn (Z.to_nat n) (att ++ dec)) = Z.to_nat n)
    by (rewrite length_firstn; lia).
  destruct (last_item_some (firstn (Z.to_nat n) (att ++ dec)))
    as [last_val Hlast].
  { intros E0. rewrite E0 in Hlen. simpl in Hlen. lia. }
  exists last_val. split.
  - unfold Tensor.last_item in Hlast.
    destruct (rev (firstn (Z.to_nat n) (att ++ dec))) as [| v tl] eqn:Erev;
      [discriminate |].
    injection Hlast as ->.
    assert (Ef : firstn (Z.to_nat n) (att ++ dec) = rev tl ++ [last_val]).
    { rewrite <- (rev_involutive (firstn _ _)), Erev. reflexivity. }
    assert (Hl : length (rev tl) = (Z.to_nat n - 1)%nat).
    { rewrite Ef, length_app in Hlen. simpl in Hlen. lia. }
    rewrite <- (firstn_skipn (Z.to_nat n) (att ++ dec)), Ef.
    rewrite <- app_assoc. rewrite nth_error_app2 by lia.
    rewrite Hl, Nat.sub_diag. reflexivity.
  - rewrite (forward_eq self p a d s r alpha Hreads nod Hnod).
    fold n. rewrite E. simpl. rewrite Hlast. simpl.
    rewrite (note_off_eq self p rel last_val Hrel). reflexivity.
Qed.

(** Long note: attack and decay in full, a hold at sustain, and the release
    scaled by the held value. *)
Lemma forward_held :
  (Z.of_nat (length (att ++ dec)) < n)%Z ->
  TorchADSR._forward self p (Fin nod)
  = Ok (((att ++ dec)
         ++ map (fun v => (v * Fin s)%fl)
              (repeat (T 1) (Z.to_nat (n - Z.of_nat (length (att ++ dec))))))
        ++ map (fun v => (v * (T 1 * Fin s))%fl) rel).
Proof.
  intros Hn.
  rewrite (forward_eq self p a d s r alpha Hreads nod Hnod). fold n.
  rewrite (note_on_eq self p a d s r alpha Hreads att dec n Hatt Hdec).
  destruct (Z.leb_spec n (Z.of_nat (length (att ++ dec)))); [lia |].
  simpl. rewrite last_item_repeat_scaled by lia. simpl.
  rewrite (note_off_eq self p rel _ Hrel). reflexivity.
Qed.

(** A render that returns has at least one note-on sample, and its length is
    that count plus the length of the release. *)
Lemma forward_returns (out : tensor) :
  TorchADSR._forward self p (Fin nod) = Ok out ->
  (1 <= n)%Z /\ length out = (Z.to_nat n + length rel)%nat.
Proof.
  intros Hout. pose proof n_nonneg as Hn0.
  destruct (Z.eq_dec n 0) as [E0 | N0].
  - destruct (forward_no_sample E0) as [_ Hfail].
    rewrite Hfail in Hout. discriminate.
  - split; [lia |].
    destruct (Z_le_gt_dec n (Z.of_nat (length (att ++ dec)))) as [Hle | Hgt].
    + destruct forward_truncated as [last_val [_ E]]; [lia |].
      rewrite E in Hout. injection Hout as <-.
      rewrite length_app, length_firstn, length_map. clearbody n. lia.
    + rewrite forward_held in Hout by lia. injection Hout as <-.
      rewrite !length_app, !length_map, repeat_length.
      rewrite length_app in Hgt. clearbody n. lia.
Qed.
End EnvelopeShape.

(** ** The envelope: the claims *)

Lemma effective_pos (a d nod : R) : (0 < nod)%R -> effective a d nod = nod.
Proof.
  intros H. unfold effective. rewrite Reqb_false by lra. reflexivity.
Qed.

Lemma effective_zero (a d : R) : effective a d 0 = (a + d)%R.
Proof.
  unfold effective. rewrite Reqb_true by reflexivity. reflexivity.
Qed.

Lemma forward_Ok_nonneg (self : TorchSynthModule.t)
    (p : string -> result float) (nod : R) (out : tensor) :
  TorchADSR._forward self p (Fin nod) = Ok out -> (0 <= nod)%R.
Proof.
  unfold TorchADSR._forward, Float.ge, Float.le, T, Float.Rleb.
  destruct (Rle_dec 0 nod) as [H | H]; [intros _; exact H | discriminate].
Qed.

(** C10: for an ADSR module whose reads give values of the declared ranges,
    a render that returns has an effective note-on duration of at least one
    sample; with attack 0, decay 0 and note-on duration 0 the attack-decay
    buffer that [note_on] returns is empty and the render raises
    [IndexError] at its last element: no release-only envelope is
    returned.  With the read method of the base class no render returns at
    all. *)
Theorem adsr_render_needs_a_sample
    (self : TorchSynthModule.t) (p : string -> result float)
    (a d s r alpha : R) :
  adsr_reads p a d s r alpha ->
  (0 < TorchSynthModule.sample_rate self)%Z ->
  (forall (nod : R) (out : tensor),
     TorchADSR._forward self p (Fin nod) = Ok out ->
     (1 <= samples_of self (effective a d nod))%Z)
  /\ (a = 0%R -> d = 0%R ->
      TorchADSR.note_on self p (samples_of self (effective a d 0)) = Ok []
      /\ TorchADSR._forward self p (Fin 0) = Raise IndexError)
  /\ (forall (nod : float) (out : tensor),
        TorchADSR.forward self nod <> Ok out).
Proof.
  intros Hreads Hrate.
  destruct (attack_ok self p a d s r alpha Hreads Hrate) as [att [Hatt _]].
  destruct (decay_ok self p a d s r alpha Hreads Hrate) as [dec [Hdec _]].
  destruct (release_ok self p a d s r alpha Hreads Hrate) as [rel [Hrel _]].
  split; [| split; [| intros nod out; apply adsr_forward_never_returns]].
  - intros nod out Hout.
    pose proof (forward_Ok_nonneg self p nod out Hout) as Hnod.
    apply (forward_returns self p a d s r alpha Hreads Hrate att dec rel
             Hatt Hdec Hrel nod Hnod out Hout).
  - intros -> ->.
    apply (forward_no_sample self p 0 0 s r alpha Hreads att dec
             Hatt Hdec 0%R (Rle_refl 0)).
    rewrite effective_zero. unfold samples_of.
    replace ((0 + 0) * IZR (TorchSynthModule.sample_rate self))%R
      with (IZR 0) by lra.
    apply round_half_even_IZR.
Qed.

Lemma adsr_render_needs_a_sample_witness :
  (forall (nod : R) (out : tensor),
     TorchADSR._forward (TorchSynthModule.init 44100 512)
       (reads [("attack", Fin 0); ("decay", Fin 0); ("sustain", Fin 0.5);
               ("release", Fin 0.5); ("alpha", Fin 3)]) (Fin nod) = Ok out ->
     (1 <= samples_of (TorchSynthModule.init 44100 512) (effective 0 0 nod))%Z)
  /\ (0%R = 0%R -> 0%R = 0%R ->
      TorchADSR.note_on (TorchSynthModule.init 44100 512)
        (reads [("attack", Fin 0); ("decay", Fin 0); ("sustain", Fin 0.5);
                ("release", Fin 0.5); ("alpha", Fin 3)])
        (samples_of (TorchSynthModule.init 44100 512) (effective 0 0 0))
      = Ok []
      /\ TorchADSR._forward (TorchSynthModule.init 44100 512)
           (reads [("attack", Fin 0); ("decay", Fin 0); ("sustain", Fin 0.5);
                   ("release", Fin 0.5); ("alpha", Fin 3)]) (Fin 0)
         = Raise IndexError)
  /\ (forall (nod : float) (out : tensor),
        TorchADSR.forward (TorchSynthModule.init 44100 512) nod <> Ok out).
Proof.
  apply (adsr_render_needs_a_sample (TorchSynthModule.init 44100 512)
           (reads [("attack", Fin 0); ("decay", Fin 0); ("sustain", Fin 0.5);
                   ("release", Fin 0.5); ("alpha", Fin 3)])
           0 0 0.5 0.5 3).
  - constructor; try reflexivity; lra.
  - simpl. lia.
Defined.

(** C2 at attack 0, decay 0 and note-on duration 0, values of the declared
    ranges: the render of the module as it is raises [AttributeError] at its
    first parameter read, and with reads that give the values it raises
    [IndexError] at the last element of the empty attack-decay buffer.  No
    envelope is returned. *)
Theorem one_shot_without_attack_and_decay_fails :
  (exists m : TorchSynthModule.t,
     TorchADSR.init (Fin 0) (Fin 0) (Fin 0.5) (Fin 0.5) (Fin 3) 44100 512
     = Ok m
     /\ TorchADSR.forward m (T 0) = Raise AttributeError)
  /\ TorchADSR._forward (TorchSynthModule.init 44100 512)
       (reads [("attack", Fin 0); ("decay", Fin 0); ("sustain", Fin 0.5);
               ("release", Fin 0.5); ("alpha", Fin 3)]) (T 0)
     = Raise IndexError.
Proof.
  split.
  - destruct (adsr_init_ok 0 0 0.5 0.5 3 44100 512)
      as [m [Hm [_ [Hatt _]]]]; try lra.
    exists m. split; [exact Hm |].
    apply adsr_forward_raises; [exact Hatt | lra].
  - assert (Hreads : adsr_reads
              (reads [("attack", Fin 0); ("decay", Fin 0);
                      ("sustain", Fin 0.5); ("release", Fin 0.5);
                      ("alpha", Fin 3)]) 0 0 0.5 0.5 3)
      by (constructor; try reflexivity; lra).
    assert (Hrate : (0 < TorchSynthModule.sample_rate
                           (TorchSynthModule.init 44100 512))%Z)
      by (simpl; lia).
    destruct (attack_ok _ _ _ _ _ _ _ Hreads Hrate) as [att [Hatt _]].
    destruct (decay_ok _ _ _ _ _ _ _ Hreads Hrate) as [dec [Hdec _]].
    apply (forward_no_sample _ _ 0 0 0.5 0.5 3 Hreads att dec
             Hatt Hdec 0%R (Rle_refl 0)).
    rewrite effective_zero. unfold samples_of.
    replace ((0 + 0) * IZR (TorchSynthModule.sample_rate
                              (TorchSynthModule.init 44100 512)))%R
      with (IZR 0) by lra.
    apply round_half_even_IZR.
Qed.

(** The one-shot envelope when the reads give values and the effective
    duration has a sample: its length is [seconds_to_samples(attack + decay)]
    plus the length of the release. *)
Lemma one_shot_length
    (self : TorchSynthModule.t) (p : string -> result float)
    (a d s r alpha : R) (rel out : tensor) :
  adsr_reads p a d s r alpha ->
  (0 < TorchSynthModule.sample_rate self)%Z ->
  TorchADSR.release self p = Ok rel ->
  TorchADSR._forward self p (Fin 0) = Ok out ->
  length out = (Z.to_nat (samples_of self (a + d)) + length rel)%nat.
Proof.
  intros Hreads Hrate Hrel Hout.
  destruct (attack_ok self p a d s r alpha Hreads Hrate) as [att [Hatt _]].
  destruct (decay_ok self p a d s r alpha Hreads Hrate) as [dec [Hdec _]].
  rewrite <- (effective_zero a d).
  apply (forward_returns self p a d s r alpha Hreads Hrate att dec rel
           Hatt Hdec Hrel 0%R (Rle_refl 0) out Hout).
Qed.

(** The sum of two rounded durations can fall short of the rounded sum:
    at 44100 samples per second, attack and decay of 0.00001 s have no sample
    each, their sum has one, and the one-shot envelope starts with one
    sample held at sustain. *)
Lemma one_shot_can_hold_sustain :
  exists rel : tensor,
    TorchADSR._forward (TorchSynthModule.init 44100 512)
      (reads [("attack", Fin 0.00001); ("decay", Fin 0.00001);
              ("sustain", Fin 0.5); ("release", Fin 0.5); ("alpha", Fin 3)])
      (T 0)
    = Ok ((T 1 * Fin 0.5)%fl :: map (fun v => (v * (T 1 * Fin 0.5))%fl) rel).
Proof.
  set (p := reads [("attack", Fin 0.00001); ("decay", Fin 0.00001);
                   ("sustain", Fin 0.5); ("release", Fin 0.5);
                   ("alpha", Fin 3)]).
  set (self := TorchSynthModule.init 44100 512).
  assert (Hreads : adsr_reads p 0.00001 0.00001 0.5 0.5 3)
    by (constructor; try reflexivity; lra).
  assert (Hrate : (0 < TorchSynthModule.sample_rate self)%Z)
    by (simpl; lia).
  destruct (attack_ok _ _ _ _ _ _ _ Hreads Hrate) as [att [Hatt Latt]].
  destruct (decay_ok _ _ _ _ _ _ _ Hreads Hrate) as [dec [Hdec Ldec]].
  destruct (release_ok _ _ _ _ _ _ _ Hreads Hrate) as [rel [Hrel _]].
  assert (E0 : samples_of self 0.00001 = 0%Z).
  { unfold samples_of. apply round_half_even_unique. simpl. lra. }
  assert (E1 : samples_of self (effective 0.00001 0.00001 0) = 1%Z).
  { rewrite effective_zero. unfold samples_of.
    apply round_half_even_unique. simpl. lra. }
  rewrite E0 in Latt, Ldec.
  destruct att; [| discriminate Latt]. destruct dec; [| discriminate Ldec].
  exists rel. unfold T at 1.
  rewrite (forward_held self p _ _ _ _ _ Hreads [] [] rel Hatt Hdec Hrel
             0%R (Rle_refl 0)); rewrite E1; [reflexivity | simpl; lia].
Qed.

(** C3 on the code, at the default module and a note-on duration 0.1 s,
    shorter than the attack of 0.25 s: the render raises [AttributeError] at
    the parameter read of the attack and returns no envelope. *)
Theorem early_release_raises :
  exists m : TorchSynthModule.t,
    TorchADSR.init (Fin 0.25) (Fin 0.25) (Fin 0.5) (Fin 0.5) (Fin 3)
      44100 512 = Ok m
    /\ TorchADSR.forward m (T 0.1) = Raise AttributeError.
Proof.
  destruct (adsr_init_ok 0.25 0.25 0.5 0.5 3 44100 512)
    as [m [Hm [_ [Hatt _]]]]; try lra.
  exists m. split; [exact Hm |].
  apply adsr_forward_raises; [exact Hatt | lra].
Qed.

(** What [note_on] and [_forward] do once the reads give values: the first
    [n] samples of attack and decay, then the release scaled by the last
    sample kept; for a note shorter than the attack those are samples of the
    attack alone. *)
Lemma early_release_with_reads
    (self : TorchSynthModule.t) (p : string -> result float)
    (a d s r alpha nod : R) (att dec rel : tensor) :
  adsr_reads p a d s r alpha ->
  (0 < TorchSynthModule.sample_rate self)%Z ->
  TorchADSR.attack self p = Ok att ->
  TorchADSR.decay self p = Ok dec ->
  TorchADSR.release self p = Ok rel ->
  (0 < nod)%R ->
  (1 <= samples_of self nod <= Z.of_nat (length (att ++ dec)))%Z ->
  exists last_val : float,
    nth_error (att ++ dec) (Z.to_nat (samples_of self nod) - 1)
    = Some last_val
    /\ TorchADSR._forward self p (Fin nod)
       = Ok (firstn (Z.to_nat (samples_of self nod)) (att ++ dec)
             ++ map (fun v => (v * last_val)%fl) rel)
    /\ ((nod < a)%R ->
        firstn (Z.to_nat (samples_of self nod)) (att ++ dec)
        = firstn (Z.to_nat (samples_of self nod)) att
        /\ nth_error att (Z.to_nat (samples_of self nod) - 1)
           = Some last_val).
Proof.
  intros Hreads Hrate Hatt Hdec Hrel Hnod Hn.
  pose proof (effective_pos a d nod Hnod) as Eeff.
  destruct (forward_truncated self p a d s r alpha Hreads att dec rel
              Hatt Hdec Hrel nod ltac:(lra)) as [last_val [Hnth Hfw]].
  { rewrite Eeff. exact Hn. }
  rewrite Eeff in Hnth, Hfw.
  exists last_val. split; [exact Hnth |]. split; [exact Hfw |].
  intros Hshort.
  destruct (attack_ok self p a d s r alpha Hreads Hrate) as [att' [Hatt' Latt]].
  rewrite Hatt in Hatt'. injection Hatt' as <-.
  pose proof (samples_of_mono self Hrate nod a ltac:(lra)) as Hmono.
  assert (Hle : (Z.to_nat (samples_of self nod) <= length att)%nat) by lia.
  split.
  - rewrite firstn_app.
    replace (Z.to_nat (samples_of self nod) - length att)%nat with 0%nat
      by lia.
    simpl. apply app_nil_r.
  - rewrite nth_error_app1 in Hnth by lia. exact Hnth.
Qed.

(** ** Sums of scalars and running sums *)










(** ** The oscillators *)

Section Oscillator.
Variable SAMPLE_RATE : Z.
Variable cls : TorchVCO.kind.
Variable p : string -> result float.

Local Abbreviation cosine_argument := (cosine_argument SAMPLE_RATE).

Lemma vco_forward_inv (ph : float) (mod_signal : tensor) (phase : float)
    (out : tensor) (stored : float) :
  TorchVCO._forward SAMPLE_RATE cls p ph mod_signal phase = (Ok out, stored) ->
  valid_mod mod_signal = true
  /\ exists cf : tensor,
       TorchVCO.make_control_as_frequency cls p mod_signal = Ok cf
       /\ Tensor.last_item (cosine_argument cf phase) = Ok stored
       /\ TorchVCO.oscillator cls p (cosine_argument cf phase) = Ok out.
Proof.
  unfold TorchVCO._forward. fold (valid_mod mod_signal).
  destruct (valid_mod mod_signal); simpl; [| discriminate].
  destruct (TorchVCO.make_control_as_frequency cls p mod_signal) as [cf |];
    [| discriminate].
  fold (cosine_argument cf phase).
  destruct (Tensor.last_item (cosine_argument cf phase)) as [last |] eqn:EL;
    [| discriminate].
  intros [= Hout <-]. split; [reflexivity |].
  exists cf. split; [reflexivity |]. split; [exact EL | exact Hout].
Qed.

Lemma vco_forward_intro (ph : float) (mod_signal cf : tensor) (phase : float)
    (out : tensor) (stored : float) :
  valid_mod mod_signal = true ->
  TorchVCO.make_control_as_frequency cls p mod_signal = Ok cf ->
  Tensor.last_item (cosine_argument cf phase) = Ok stored ->
  TorchVCO.oscillator cls p (cosine_argument cf phase) = Ok out ->
  TorchVCO._forward SAMPLE_RATE cls p ph mod_signal phase = (Ok out, stored).
Proof.
  intros Hv Hcf Hlast Hosc. unfold TorchVCO._forward.
  fold (valid_mod mod_signal). rewrite Hv. simpl. rewrite Hcf.
  fold (cosine_argument cf phase). rewrite Hlast, Hosc. reflexivity.
Qed.







(** The stored phase is not read: the outcome is the same whatever it is,
    and the phase after the call is either the one written, the same in both
    runs, or the one that was there. *)
Lemma vco_forward_phase_unread (ph1 ph2 : float) (mod_signal : tensor)
    (phase : float) :
  fst (TorchVCO._forward SAMPLE_RATE cls p ph1 mod_signal phase)
  = fst (TorchVCO._forward SAMPLE_RATE cls p ph2 mod_signal phase)
  /\ (snd (TorchVCO._forward SAMPLE_RATE cls p ph1 mod_signal phase)
      = snd (TorchVCO._forward SAMPLE_RATE cls p ph2 mod_signal phase)
      \/ (snd (TorchVCO._forward SAMPLE_RATE cls p ph1 mod_signal phase) = ph1
          /\ snd (TorchVCO._forward SAMPLE_RATE cls p ph2 mod_signal phase)
             = ph2)).
Proof.
  unfold TorchVCO._forward.
  destruct (assert _); simpl; [| auto].
  destruct (TorchVCO.make_control_as_frequency cls p mod_signal); simpl;
    [| auto].
  destruct (Tensor.last_item _); simpl; auto.
Qed.
End Oscillator.

(** C9: for each oscillator class, a render does not read the stored phase.
    Two calls with the same modulation signal, phase offset and parameter
    reads have the same outcome whatever the stored phase is, and the phase
    they leave is either the one they write, the same value in both, or the
    one that was there; the same holds on an oscillator object whose
    [phase] attribute is replaced. *)
Theorem vco_output_ignores_stored_phase
    (SAMPLE_RATE : Z) (cls : TorchVCO.kind) (p : string -> result float)
    (self : TorchVCO.t) (ph1 ph2 : float) (mod_signal : tensor)
    (phase : float) :
  (fst (TorchVCO._forward SAMPLE_RATE cls p ph1 mod_signal phase)
   = fst (TorchVCO._forward SAMPLE_RATE cls p ph2 mod_signal phase)
   /\ (snd (TorchVCO._forward SAMPLE_RATE cls p ph1 mod_signal phase)
       = snd (TorchVCO._forward SAMPLE_RATE cls p ph2 mod_signal phase)
       \/ (snd (TorchVCO._forward SAMPLE_RATE cls p ph1 mod_signal phase)
            = ph1
           /\ snd (TorchVCO._forward SAMPLE_RATE cls p ph2 mod_signal phase)
              = ph2)))
  /\ fst (TorchVCO.forward SAMPLE_RATE (TorchVCO.set_phase self ph1)
            mod_signal phase)
     = fst (TorchVCO.forward SAMPLE_RATE (TorchVCO.set_phase self ph2)
              mod_signal phase).
Proof.
  split; [apply vco_forward_phase_unread |].
  unfold TorchVCO.forward. simpl.
  pose proof (vco_forward_phase_unread SAMPLE_RATE (TorchVCO.cls self)
                (TorchSynthModule.p (TorchVCO.base self)) ph1 ph2
                mod_signal phase) as [H _].
  destruct (TorchVCO._forward SAMPLE_RATE (TorchVCO.cls self)
              (TorchSynthModule.p (TorchVCO.base self)) ph1 mod_signal phase).
  destruct (TorchVCO._forward SAMPLE_RATE (TorchVCO.cls self)
              (TorchSynthModule.p (TorchVCO.base self)) ph2 mod_signal phase).
  exact H.
Qed.

(** [TorchVCO.__init__] (and [TorchSquareSawVCO.__init__]) with values of
    the declared ranges builds an oscillator that holds [pitch] and
    [mod_depth]. *)
Lemma vco_init_ok (cls : TorchVCO.kind) (shape pitch depth : R)
    (phase : float) (sample_rate buffer_size : Z) :
  (0 <= shape <= 1)%R -> (0 <= pitch <= 127)%R -> (0 <= depth <= 127)%R ->
  exists vco : TorchVCO.t,
    TorchVCO.init cls (Fin shape) (Fin pitch) (Fin depth) phase
      sample_rate buffer_size = Ok vco
    /\ TorchVCO.cls vco = cls
    /\ TorchVCO.phase vco = phase
    /\ is_Some (TorchSynthModule.torchparameters (TorchVCO.base vco) !! "pitch")
    /\ is_Some (TorchSynthModule.torchparameters (TorchVCO.base vco)
                !! "mod_depth").
Proof.
  intros Hshape Hpitch Hdepth. unfold TorchVCO.init.
  change (ParameterRange.init (T 0) (T 127) "linear")
    with (Ok (ParameterRange.mk (Fin 0) (Fin 127) "linear" (Fin 1))).
  change (ParameterRange.init (T 0) (T 1) "linear")
    with (Ok (ParameterRange.mk (Fin 0) (Fin 1) "linear" (Fin 1))).
  cbn [bind]. unfold T.
  destruct (new_ok "pitch" "linear"
              (ParameterRange.mk (Fin 0) (Fin 127) "linear" (Fin 1))
              0 127 pitch (Fin 0) eq_refl ltac:(lra) Hpitch) as [yp ->].
  destruct (new_ok "mod_depth" "linear"
              (ParameterRange.mk (Fin 0) (Fin 127) "linear" (Fin 1))
              0 127 depth (Fin 0) eq_refl ltac:(lra) Hdepth) as [yd ->].
  destruct (new_ok "shape" "linear"
              (ParameterRange.mk (Fin 0) (Fin 1) "linear" (Fin 1))
              0 1 shape (Fin 0) eq_refl ltac:(lra) Hshape) as [ys ->].
  cbn [bind].
  repeat (rewrite add_parameters_fresh
            by (cbn [TorchParameter.parameter_name TorchSynthModule.setitem
                     TorchSynthModule.torchparameters TorchSynthModule.init];
                simplify_map_eq; reflexivity)).
  cbn [TorchSynthModule.add_parameters TorchParameter.parameter_name bind].
  destruct cls; cbn [bind TorchVCO.base];
    repeat (rewrite add_parameters_fresh
              by (cbn [TorchParameter.parameter_name TorchSynthModule.setitem
                       TorchSynthModule.torchparameters TorchSynthModule.init];
                  simplify_map_eq; reflexivity));
    cbn [TorchSynthModule.add_parameters bind];
    (eexists; split; [reflexivity |]);
    cbn [TorchVCO.cls TorchVCO.phase TorchVCO.base TorchSynthModule.setitem
         TorchSynthModule.torchparameters TorchSynthModule.init
         TorchParameter.parameter_name];
    repeat split; simplify_map_eq; eauto.
Qed.


Lemma partials_constant_raises (self : TorchSynthModule.t) :
  is_Some (TorchSynthModule.torchparameters self !! "pitch") ->
  TorchVCO.partials_constant (TorchSynthModule.p self)
  = Raise AttributeError.
Proof.
  intros [pp Hp]. unfold TorchVCO.partials_constant.
  rewrite p_raises, Hp. reflexivity.
Qed.







(** ** The partials constant *)

(** C8 on the code, at the default square/saw oscillator (pitch 10, depth
    50): reading [partials_constant] raises [AttributeError] at the parameter
    read of the pitch, so no constant is computed. *)
Theorem partials_constant_is_not_computed :
  exists vco : TorchVCO.t,
    TorchVCO.init TorchVCO.SquareSaw (Fin 0) (Fin 10) (Fin 50) (T 0)
      44100 512 = Ok vco
    /\ TorchVCO.partials_constant (TorchSynthModule.p (TorchVCO.base vco))
       = Raise AttributeError.
Proof.
  destruct (vco_init_ok TorchVCO.SquareSaw 0 10 50 (T 0) 44100 512)
    as [vco [Hinit [_ [_ [Hp _]]]]]; try lra.
  exists vco. split; [exact Hinit |].
  apply partials_constant_raises. exact Hp.
Qed.

Section PartialsConstant.
Local Open Scope R_scope.

Lemma ln_pos (x : R) : 1 < x -> 0 < ln x.
Proof.
  intros H. rewrite <- ln_1. apply ln_increasing; lra.
Qed.

Lemma Rpower_2_m6 : Rpower 2 (- (6)) = / 64.
Proof.
  rewrite Rpower_Ropp. f_equal.
  replace 6 with (INR 6) by (simpl; lra).
  rewrite Rpower_pow by lra. simpl. lra.
Qed.

(** [midi_to_hz] of a pitch that is not negative is above 1 Hz. *)
Lemma hz_above_one (x : R) :
  0 <= x -> 1 < 440 * Rpower 2 ((x + - (69)) / 12).
Proof.
  intros Hx.
  assert (H : Rpower 2 (- (6)) <= Rpower 2 ((x + - (69)) / 12))
    by (apply Rle_Rpower; lra).
  rewrite Rpower_2_m6 in H. lra.
Qed.

Lemma hz_increasing (x y : R) :
  x < y ->
  440 * Rpower 2 ((x + - (69)) / 12) < 440 * Rpower 2 ((y + - (69)) / 12).
Proof.
  intros Hxy.
  assert (Rpower 2 ((x + - (69)) / 12) < Rpower 2 ((y + - (69)) / 12))
    by (apply Rpower_lt; lra).
  lra.
Qed.

(** With reads that give the pitch and the depth, the constant is
    [12000 / (max_f0 * log10(max_f0))] for
    [max_f0 = 440 * 2^((pitch + depth - 69) / 12)]. *)
Lemma partials_constant_with_reads (p : string -> result float)
    (pitch depth : R) :
  p "pitch" = Ok (Fin pitch) ->
  p "mod_depth" = Ok (Fin depth) ->
  0 <= pitch + depth ->
  TorchVCO.partials_constant p
  = Ok (Fin (12000
             / (440 * Rpower 2 ((pitch + depth + - (69)) / 12)
                * (ln (440 * Rpower 2 ((pitch + depth + - (69)) / 12))
                   / ln 10)))).
Proof.
  intros Hp Hd Hsum. unfold TorchVCO.partials_constant.
  rewrite Hp, Hd. simpl.
  unfold TorchUtil.midi_to_hz, T. simpl. real_tests. simpl.
  pose proof (hz_above_one (pitch + depth) Hsum) as Hm.
  set (m := 440 * Rpower 2 ((pitch + depth + - (69)) / 12)) in *.
  pose proof (ln_pos m Hm) as Hln.
  assert (Hln10 : 0 < ln 10) by (apply ln_pos; lra).
  assert (Hlog : 0 < ln m / ln 10) by (apply Rdiv_lt_0_compat; assumption).
  unfold Float.log10. real_tests. simpl.
  assert (Hprod : 0 < m * (ln m / ln 10)) by (apply Rmult_lt_0_compat; lra).
  real_tests. reflexivity.
Qed.

(** The constant falls as [pitch + mod_depth] rises. *)
Lemma partials_constant_decreasing (x y : R) :
  0 <= x -> x < y ->
  12000 / (440 * Rpower 2 ((y + - (69)) / 12)
           * (ln (440 * Rpower 2 ((y + - (69)) / 12)) / ln 10))
  < 12000 / (440 * Rpower 2 ((x + - (69)) / 12)
             * (ln (440 * Rpower 2 ((x + - (69)) / 12)) / ln 10)).
Proof.
  intros Hx Hxy.
  pose proof (hz_above_one x Hx) as Hmx.
  pose proof (hz_above_one y ltac:(lra)) as Hmy.
  pose proof (hz_increasing x y Hxy) as Hinc.
  set (mx := 440 * Rpower 2 ((x + - (69)) / 12)) in *.
  set (my := 440 * Rpower 2 ((y + - (69)) / 12)) in *.
  assert (Hln10 : 0 < ln 10) by (apply ln_pos; lra).
  assert (Hlx : 0 < ln mx) by (apply ln_pos; exact Hmx).
  assert (Hlxy : ln mx < ln my) by (apply ln_increasing; lra).
  assert (Hi : 0 < / ln 10) by (apply Rinv_0_lt_compat; exact Hln10).
  assert (Hgx : 0 < mx * (ln mx / ln 10))
    by (apply Rmult_lt_0_compat; [lra | unfold Rdiv; nra]).
  assert (Hg : mx * (ln mx / ln 10) < my * (ln my / ln 10)).
  { unfold Rdiv.
    assert (ln mx * / ln 10 < ln my * / ln 10) by nra.
    assert (0 < ln mx * / ln 10) by nra.
    nra. }
  unfold Rdiv at 1 3.
  apply Rmult_lt_compat_l; [lra |].
  apply Rinv_lt_contravar; [nra | exact Hg].
Qed.

(** What the property computes once the reads give values of the declared
    ranges: the constants of two oscillators are ordered against their
    [pitch + mod_depth]. *)
Lemma partials_constant_ordered (p1 p2 : string -> result float)
    (pitch1 depth1 pitch2 depth2 : R) :
  p1 "pitch" = Ok (Fin pitch1) -> p1 "mod_depth" = Ok (Fin depth1) ->
  p2 "pitch" = Ok (Fin pitch2) -> p2 "mod_depth" = Ok (Fin depth2) ->
  0 <= pitch1 <= 127 -> 0 <= depth1 <= 127 ->
  0 <= pitch2 <= 127 -> 0 <= depth2 <= 127 ->
  pitch1 + depth1 < pitch2 + depth2 ->
  exists c1 c2 : R,
    TorchVCO.partials_constant p1 = Ok (Fin c1)
    /\ TorchVCO.partials_constant p2 = Ok (Fin c2)
    /\ c2 < c1.
Proof.
  intros Hp1 Hd1 Hp2 Hd2 R1 R2 R3 R4 Hlt.
  rewrite (partials_constant_with_reads p1 pitch1 depth1 Hp1 Hd1) by lra.
  rewrite (partials_constant_with_reads p2 pitch2 depth2 Hp2 Hd2) by lra.
  eexists. eexists. split; [reflexivity |]. split; [reflexivity |].
  apply partials_constant_decreasing; lra.
Qed.
End PartialsConstant.

(** * Further properties of the code *)

(** ** ParameterRange *)

(** X1: [ParameterRange.__init__] raises [ValueError] exactly for a curve name
    other than "linear", "log" and "exp"; otherwise it keeps the bounds and
    the name and sets the exponent 1, 0.5 or 2 that goes with the name. *)
Theorem parameter_range_init_curves (mn mx : float) (c : string) :
  (ParameterRange.init mn mx c = Raise ValueError
   <-> c <> "linear" /\ c <> "log" /\ c <> "exp")
  /\ (forall rng : ParameterRange.t,
        ParameterRange.init mn mx c = Ok rng ->
        ParameterRange.minimum rng = mn
        /\ ParameterRange.maximum rng = mx
        /\ ParameterRange.curve_type rng = c
        /\ (c = "linear" /\ ParameterRange.curve rng = T 1
            \/ c = "log" /\ ParameterRange.curve rng = T 0.5
            \/ c = "exp" /\ ParameterRange.curve rng = T 2)).
Proof.
  unfold ParameterRange.init.
  destruct (String.eqb_spec c "linear") as [E1 | N1].
  { split.
    - split; [discriminate | intros [H _]; contradiction].
    - intros rng [= <-]. simpl. repeat split. left. split; [exact E1 | reflexivity]. }
  destruct (String.eqb_spec c "log") as [E2 | N2].
  { split.
    - split; [discriminate | intros [_ [H _]]; contradiction].
    - intros rng [= <-]. simpl. repeat split. right. left.
      split; [exact E2 | reflexivity]. }
  destruct (String.eqb_spec c "exp") as [E3 | N3].
  { split.
    - split; [discriminate | intros [_ [_ H]]; contradiction].
    - intros rng [= <-]. simpl. repeat split. right. right.
      split; [exact E3 | reflexivity]. }
  split; [split; auto | discriminate].
Qed.




Lemma curve_unit_range (k x : R) :
  (0 < k)%R -> (0 <= x <= 1)%R -> (0 <= curve_unit k x <= 1)%R.
Proof.
  intros Hk Hx. unfold curve_unit.
  destruct (Req_dec_T x 0) as [E | N]; [lra |].
  split; [left; apply exp_pos |].
  assert (Hln : (ln x <= 0)%R) by (apply ln_nonpos; lra).
  assert (Hi : (0 < / k)%R) by (apply Rinv_0_lt_compat; exact Hk).
  rewrite <- exp_0.
  destruct (Req_dec_T (ln x / k) 0) as [E0 | N0]; [rewrite E0; lra |].
  left. apply exp_increasing. unfold Rdiv in *. nra.
Qed.

Lemma curve_unit_mono (k x y : R) :
  (0 < k)%R -> (0 <= x <= y)%R -> (curve_unit k x <= curve_unit k y)%R.
Proof.
  intros Hk Hxy. unfold curve_unit.
  destruct (Req_dec_T x 0) as [Ex | Nx];
    destruct (Req_dec_T y 0) as [Ey | Ny]; try lra.
  - left. apply exp_pos.
  - assert (Hi : (0 < / k)%R) by (apply Rinv_0_lt_compat; exact Hk).
    destruct (Req_dec_T x y) as [E | N]; [subst; lra |].
    assert (Hln : (ln x < ln y)%R) by (apply ln_increasing; lra).
    left. apply exp_increasing. unfold Rdiv. nra.
Qed.

Lemma from_0to1_curved_value (mn mx : R) (c : string) (k x : R) :
  (0 < k)%R -> k <> 1%R -> (0 <= x <= 1)%R ->
  ParameterRange.from_0to1
    (ParameterRange.mk (Fin mn) (Fin mx) c (Fin k)) (Fin x)
  = Ok (Fin (mn + (mx + - mn) * curve_unit k x)).
Proof.
  intros Hk Hk1 Hx. unfold ParameterRange.from_0to1, T, curve_unit. simpl.
  real_tests. unfold Float.log2.
  destruct (Req_dec_T x 0) as [E | N].
  - subst x. real_tests. simpl. real_tests. reflexivity.
  - real_tests. simpl. real_tests. simpl. do 4 f_equal.
    assert (Hln2 : (0 < ln 2)%R) by (apply ln_pos; lra).
    unfold Rpower. f_equal. field. lra.
Qed.

(** X3: [from_0to1] keeps the order of normalised values: for a range with
    [minimum <= maximum] and [0 <= x <= y <= 1], both conversions return a
    finite value and the one of [x] is not above the one of [y], for each of
    the three curves. *)
Theorem from_0to1_monotone
    (mn mx : R) (c : string) (rng : ParameterRange.t) (x y : R) :
  ParameterRange.init (Fin mn) (Fin mx) c = Ok rng ->
  (mn <= mx)%R ->
  (0 <= x <= y)%R -> (y <= 1)%R ->
  exists vx vy : R,
    ParameterRange.from_0to1 rng (Fin x) = Ok (Fin vx)
    /\ ParameterRange.from_0to1 rng (Fin y) = Ok (Fin vy)
    /\ (vx <= vy)%R.
Proof.
  intros Hinit Hrange Hxy Hy.
  destruct (ParameterRange_init_cases _ _ _ _ Hinit) as [-> | [-> | ->]].
  - exists (mn + (mx + - mn) * x)%R, (mn + (mx + - mn) * y)%R.
    split; [| split].
    + unfold ParameterRange.from_0to1, T. simpl. real_tests. reflexivity.
    + unfold ParameterRange.from_0to1, T. simpl. real_tests. reflexivity.
    + nra.
  - unfold T.
    rewrite (from_0to1_curved_value mn mx c 0.5 x) by lra.
    rewrite (from_0to1_curved_value mn mx c 0.5 y) by lra.
    eexists. eexists. split; [reflexivity |]. split; [reflexivity |].
    pose proof (curve_unit_mono 0.5 x y ltac:(lra) Hxy). nra.
  - unfold T.
    rewrite (from_0to1_curved_value mn mx c 2 x) by lra.
    rewrite (from_0to1_curved_value mn mx c 2 y) by lra.
    eexists. eexists. split; [reflexivity |]. split; [reflexivity |].
    pose proof (curve_unit_mono 2 x y ltac:(lra) Hxy). nra.
Qed.

Lemma from_0to1_monotone_witness :
  exists vx vy : R,
    ParameterRange.from_0to1
      (ParameterRange.mk (Fin 0) (Fin 2) "log" (T 0.5)) (Fin 0) = Ok (Fin vx)
    /\ ParameterRange.from_0to1
         (ParameterRange.mk (Fin 0) (Fin 2) "log" (T 0.5)) (Fin 0.5)
       = Ok (Fin vy)
    /\ (vx <= vy)%R.
Proof.
  apply (from_0to1_monotone 0 2 "log"); [reflexivity | lra | lra | lra].
Defined.

(** X4: both conversions fail with [AssertionError] on an input outside
    their interval, whatever the curve: [from_0to1] on a value below 0 or
    above 1, [to_0to1] on a value below the minimum or above the maximum, and
    either of them on NaN. *)
Theorem conversions_reject_out_of_range
    (mn mx : R) (c : string) (k : float) (x : R) :
  ((x < 0 \/ 1 < x)%R ->
   ParameterRange.from_0to1 (ParameterRange.mk (Fin mn) (Fin mx) c k) (Fin x)
   = Raise AssertionError)
  /\ ((x < mn \/ mx < x)%R ->
      ParameterRange.to_0to1 (ParameterRange.mk (Fin mn) (Fin mx) c k) (Fin x)
      = Raise AssertionError)
  /\ ParameterRange.from_0to1 (ParameterRange.mk (Fin mn) (Fin mx) c k) NaN
     = Raise AssertionError
  /\ ParameterRange.to_0to1 (ParameterRange.mk (Fin mn) (Fin mx) c k) NaN
     = Raise AssertionError.
Proof.
  split; [| split; [| split; reflexivity]].
  - intros [H | H]; unfold ParameterRange.from_0to1, T; simpl; real_tests;
      reflexivity.
  - intros H. unfold ParameterRange.to_0to1, T, Float.le, Float.Rleb. simpl.
    destruct (Rle_dec mn x); destruct (Rle_dec x mx); try reflexivity. lra.
Qed.

Lemma conversions_reject_out_of_range_witness :
  ParameterRange.from_0to1
    (ParameterRange.mk (Fin 0) (Fin 127) "linear" (T 1)) (Fin 1.5)
  = Raise AssertionError
  /\ ParameterRange.to_0to1
       (ParameterRange.mk (Fin 0) (Fin 127) "linear" (T 1)) (Fin 128)
     = Raise AssertionError.
Proof.
  destruct (conversions_reject_out_of_range 0 127 "linear" (T 1) 1.5)
    as [H1 _].
  destruct (conversions_reject_out_of_range 0 127 "linear" (T 1) 128)
    as [_ [H2 _]].
  split; [apply H1; lra | apply H2; lra].
Defined.



(** ** TorchParameter *)







(** ** The parameter registry of a module *)

Lemma setitem_lookup (self : TorchSynthModule.t) (name n : string)
    (prm : TorchParameter.t) :
  TorchSynthModule.torchparameters (TorchSynthModule.setitem self name prm)
    !! n
  = if decide (name = n) then Some prm
    else TorchSynthModule.torchparameters self !! n.
Proof.
  unfold TorchSynthModule.setitem. simpl. apply lookup_insert.
Qed.

Lemma add_parameters_inv (ps : list TorchParameter.t) :
  forall self self' : TorchSynthModule.t,
    TorchSynthModule.add_parameters self ps = Ok self' ->
    NoDup (map TorchParameter.parameter_name ps)
    /\ Forall (fun prm => TorchSynthModule.torchparameters self
                          !! TorchParameter.parameter_name prm = None) ps
    /\ TorchSynthModule.sample_rate self' = TorchSynthModule.sample_rate self
    /\ TorchSynthModule.buffer_size self' = TorchSynthModule.buffer_size self
    /\ (forall prm, In prm ps ->
          TorchSynthModule.torchparameters self'
            !! TorchParameter.parameter_name prm = Some prm)
    /\ (forall n, ~ In n (map TorchParameter.parameter_name ps) ->
          TorchSynthModule.torchparameters self' !! n
          = TorchSynthModule.torchparameters self !! n).
Proof.
  induction ps as [| prm ps IH]; intros self self' H; simpl in H.
  - injection H as <-. repeat split; try constructor; try reflexivity.
    intros prm [].
  - destruct (bool_decide _) eqn:Hfresh; simpl in H; [| discriminate].
    apply bool_decide_eq_true in Hfresh.
    destruct (IH _ _ H) as [Hnd [Hall [Hsr [Hbs [Hin Hout]]]]].
    assert (Hrest : Forall (fun q =>
              TorchParameter.parameter_name q
              <> TorchParameter.parameter_name prm
              /\ TorchSynthModule.torchparameters self
                 !! TorchParameter.parameter_name q = None) ps).
    { apply Forall_forall. intros q Hq.
      rewrite Forall_forall in Hall. specialize (Hall q Hq).
      rewrite setitem_lookup in Hall.
      destruct (decide (TorchParameter.parameter_name prm
                        = TorchParameter.parameter_name q));
        [discriminate | split; [congruence | exact Hall]]. }
    assert (Hnotin : ~ In (TorchParameter.parameter_name prm)
                       (map TorchParameter.parameter_name ps)).
    { intros Hi. apply in_map_iff in Hi. destruct Hi as [q [Eq Hq]].
      rewrite Forall_forall in Hrest. destruct (Hrest q Hq) as [Hne _].
      contradiction. }
    split; [constructor; assumption |].
    split.
    { constructor; [exact Hfresh |].
      apply Forall_forall. intros q Hq. rewrite Forall_forall in Hrest.
      apply (Hrest q Hq). }
    split; [rewrite Hsr; reflexivity |].
    split; [rewrite Hbs; reflexivity |].
    split.
    + intros q [<- | Hq]; [| apply Hin; exact Hq].
      rewrite (Hout _ Hnotin), setitem_lookup.
      destruct (decide _); [reflexivity | contradiction].
    + intros n Hn. simpl in Hn.
      rewrite Hout by tauto. rewrite setitem_lookup.
      destruct (decide _) as [E | _]; [| reflexivity].
      exfalso. apply Hn. left. exact E.
Qed.




(** X9: after a successful [add_parameters] every new parameter is found
    under its name, every other name is looked up as before, and the sample
    rate and the buffer size are the same. *)
Theorem add_parameters_registers
    (self self' : TorchSynthModule.t) (ps : list TorchParameter.t) :
  TorchSynthModule.add_parameters self ps = Ok self' ->
  (forall prm, In prm ps ->
     TorchSynthModule.get_parameter self' (TorchParameter.parameter_name prm)
     = Ok prm)
  /\ (forall n, ~ In n (map TorchParameter.parameter_name ps) ->
        TorchSynthModule.get_parameter self' n
        = TorchSynthModule.get_parameter self n)
  /\ TorchSynthModule.sample_rate self' = TorchSynthModule.sample_rate self
  /\ TorchSynthModule.buffer_size self' = TorchSynthModule.buffer_size self.
Proof.
  intros H.
  destruct (add_parameters_inv ps self self' H)
    as [_ [_ [Hsr [Hbs [Hin Hout]]]]].
  unfold TorchSynthModule.get_parameter, TorchSynthModule.getitem.
  split; [| split; [| split; assumption]].
  - intros prm Hp. rewrite (Hin prm Hp). reflexivity.
  - intros n Hn. rewrite (Hout n Hn). reflexivity.
Qed.

Lemma add_parameters_registers_witness :
  (forall prm,
     In prm [TorchParameter.mk (T 0.5) None "sustain";
             TorchParameter.mk (T 0.25) None "shape"] ->
     TorchSynthModule.get_parameter
       (TorchSynthModule.setitem
          (TorchSynthModule.setitem (TorchSynthModule.init 44100 512)
             "sustain" (TorchParameter.mk (T 0.5) None "sustain"))
          "shape" (TorchParameter.mk (T 0.25) None "shape"))
       (TorchParameter.parameter_name prm) = Ok prm)
  /\ (forall n,
        ~ In n (map TorchParameter.parameter_name
                  [TorchParameter.mk (T 0.5) None "sustain";
                   TorchParameter.mk (T 0.25) None "shape"]) ->
        TorchSynthModule.get_parameter
          (TorchSynthModule.setitem
             (TorchSynthModule.setitem (TorchSynthModule.init 44100 512)
                "sustain" (TorchParameter.mk (T 0.5) None "sustain"))
             "shape" (TorchParameter.mk (T 0.25) None "shape")) n
        = TorchSynthModule.get_parameter (TorchSynthModule.init 44100 512) n)
  /\ TorchSynthModule.sample_rate
       (TorchSynthModule.setitem
          (TorchSynthModule.setitem (TorchSynthModule.init 44100 512)
             "sustain" (TorchParameter.mk (T 0.5) None "sustain"))
          "shape" (TorchParameter.mk (T 0.25) None "shape"))
     = TorchSynthModule.sample_rate (TorchSynthModule.init 44100 512)
  /\ TorchSynthModule.buffer_size
       (TorchSynthModule.setitem
          (TorchSynthModule.setitem (TorchSynthModule.init 44100 512)
             "sustain" (TorchParameter.mk (T 0.5) None "sustain"))
          "shape" (TorchParameter.mk (T 0.25) None "shape"))
     = TorchSynthModule.buffer_size (TorchSynthModule.init 44100 512).
Proof.
  apply (add_parameters_registers (TorchSynthModule.init 44100 512) _
           [TorchParameter.mk (T 0.5) None "sustain";
            TorchParameter.mk (T 0.25) None "shape"]).
  repeat (rewrite add_parameters_fresh
            by (cbn [TorchParameter.parameter_name TorchSynthModule.setitem
                     TorchSynthModule.torchparameters TorchSynthModule.init];
                simplify_map_eq; reflexivity)).
  reflexivity.
Defined.



(** X11: [set_parameter_0to1] checks the value before it looks the name up:
    a value outside [[0,1]] raises [AssertionError] for every name, known or
    not, and a value of [[0,1]] with an unknown name raises [KeyError]. *)
Theorem set_parameter_0to1_errors
    (self : TorchSynthModule.t) (name : string) (v : R) :
  ((v < 0 \/ 1 < v)%R ->
   TorchSynthModule.set_parameter_0to1 self name (Fin v)
   = Raise AssertionError)
  /\ ((0 <= v <= 1)%R ->
      TorchSynthModule.torchparameters self !! name = None ->
      TorchSynthModule.set_parameter_0to1 self name (Fin v) = Raise KeyError).
Proof.
  unfold TorchSynthModule.set_parameter_0to1, Float.le, T, Float.Rleb.
  split.
  - intros H. destruct (Rle_dec 0 v); destruct (Rle_dec v 1); try reflexivity.
    lra.
  - intros H Hnone.
    destruct (Rle_dec 0 v); [| lra]. destruct (Rle_dec v 1); [| lra]. simpl.
    unfold TorchSynthModule.getitem. rewrite Hnone. reflexivity.
Qed.

Lemma set_parameter_0to1_errors_witness :
  TorchSynthModule.set_parameter_0to1 (TorchSynthModule.init 44100 512)
    "pitch" (Fin 1.5) = Raise AssertionError
  /\ TorchSynthModule.set_parameter_0to1 (TorchSynthModule.init 44100 512)
       "pitch" (Fin 0.5) = Raise KeyError.
Proof.
  destruct (set_parameter_0to1_errors (TorchSynthModule.init 44100 512)
              "pitch" 1.5) as [H1 _].
  destruct (set_parameter_0to1_errors (TorchSynthModule.init 44100 512)
              "pitch" 0.5) as [_ H2].
  split; [apply H1; lra | apply H2; [lra | reflexivity]].
Defined.

(** X12: a name that is not registered raises [KeyError] in every accessor
    that takes a name: [get_parameter], [get_parameter_0to1],
    [set_parameter] and [p]. *)
Theorem unknown_parameter_raises_KeyError
    (self : TorchSynthModule.t) (name : string) (value : float) :
  TorchSynthModule.torchparameters self !! name = None ->
  TorchSynthModule.get_parameter self name = Raise KeyError
  /\ TorchSynthModule.get_parameter_0to1 self name = Raise KeyError
  /\ TorchSynthModule.set_parameter self name value = Raise KeyError
  /\ TorchSynthModule.p self name = Raise KeyError.
Proof.
  intros H.
  unfold TorchSynthModule.get_parameter, TorchSynthModule.get_parameter_0to1,
    TorchSynthModule.set_parameter, TorchSynthModule.p,
    TorchSynthModule.getitem.
  rewrite H. repeat split; reflexivity.
Qed.

Lemma unknown_parameter_raises_KeyError_witness :
  TorchSynthModule.get_parameter (TorchSynthModule.init 44100 512) "cutoff"
  = Raise KeyError
  /\ TorchSynthModule.get_parameter_0to1 (TorchSynthModule.init 44100 512)
       "cutoff" = Raise KeyError
  /\ TorchSynthModule.set_parameter (TorchSynthModule.init 44100 512)
       "cutoff" (T 1) = Raise KeyError
  /\ TorchSynthModule.p (TorchSynthModule.init 44100 512) "cutoff"
     = Raise KeyError.
Proof.
  apply (unknown_parameter_raises_KeyError
           (TorchSynthModule.init 44100 512) "cutoff" (T 1)).
  reflexivity.
Defined.

(** ** Durations and samples *)





(** ** The construction of an ADSR module *)







(** ** The ramps of the envelope *)

Lemma ramp_eq (self : TorchSynthModule.t) (p : string -> result float)
    (duration alpha : float) (inverse : bool) :
  p "alpha" = Ok alpha ->
  (0 <= Float.round_int
          (duration * Float.of_Z (TorchSynthModule.sample_rate self))%fl)%Z ->
  TorchADSR._ramp self p duration inverse
  = Ok (map (ramp_sample self duration inverse alpha)
          (seq 0 (Z.to_nat
                    (Float.round_int
                       (duration
                        * Float.of_Z (TorchSynthModule.sample_rate self))%fl)))).
Proof.
  intros Halpha Hn.
  unfold TorchADSR._ramp, TorchSynthModule.seconds_to_samples. simpl.
  unfold Tensor.arange.
  destruct (Z.ltb_spec (Float.round_int
              (duration * Float.of_Z (TorchSynthModule.sample_rate self))%fl) 0)
    as [Hneg | _]; [lia |].
  simpl. rewrite Halpha. simpl. f_equal.
  destruct inverse; rewrite !map_map; reflexivity.
Qed.

Lemma ramp_sample_bounds (self : TorchSynthModule.t) (dur alpha : R)
    (inverse : bool) (i : nat) :
  (0 < TorchSynthModule.sample_rate self)%Z ->
  (0 <= dur)%R -> (0 < alpha)%R ->
  (i < Z.to_nat (samples_of self dur))%nat ->
  exists w : R,
    ramp_sample self (Fin dur) inverse (Fin alpha) i = Fin w
    /\ (0 <= w <= 1)%R
    /\ (i = 0%nat -> w = if inverse then 1%R else 0%R).
Proof.
  intros Hrate Hdur Halpha Hi.
  pose proof (round_half_even_near
                (dur * IZR (TorchSynthModule.sample_rate self))) as [Hnear _].
  fold (samples_of self dur) in Hnear.
  set (sr := IZR (TorchSynthModule.sample_rate self)) in *.
  set (ii := IZR (Z.of_nat i)).
  assert (Hsr : (0 < sr)%R) by (apply IZR_lt; exact Hrate).
  assert (Hii : (0 <= ii)%R) by (apply IZR_le; lia).
  assert (Hile : (ii <= IZR (samples_of self dur) - 1)%R).
  { unfold ii. rewrite <- minus_IZR. apply IZR_le. lia. }
  assert (Hlt : (ii < dur * sr)%R) by lra.
  assert (Hdpos : (0 < dur)%R) by nra.
  assert (Hq : (0 <= ii / sr * (1 / dur) < 1)%R).
  { assert (Hinv : (0 < / sr * / dur)%R)
      by (apply Rmult_lt_0_compat; apply Rinv_0_lt_compat; assumption).
    replace (ii / sr * (1 / dur))%R with (ii * (/ sr * / dur))%R
      by (field; lra).
    split; [nra |].
    replace 1%R with (dur * sr * (/ sr * / dur))%R by (field; lra). nra. }
  unfold ramp_sample, Float.of_Z, T. fold sr ii. simpl.
  real_tests. simpl.
  assert (Hq0 : i = 0%nat -> (ii / sr * (1 / dur))%R = 0%R).
  { intros ->. unfold ii. simpl. unfold Rdiv. ring. }
  remember (ii / sr * (1 / dur))%R as q eqn:Eq.
  destruct inverse.
  - simpl. assert (Hu : (0 < 1 + - q <= 1)%R) by lra.
    pose proof (Rpower_unit_interval _ alpha Hu Halpha) as Hp.
    real_tests. eexists. split; [reflexivity |]. split; [lra |].
    intros Hi0. rewrite (Hq0 Hi0). replace (1 + - 0)%R with 1%R by lra.
    unfold Rpower. rewrite ln_1, Rmult_0_r. apply exp_0.
  - destruct (Req_dec_T q 0) as [E0 | N0].
    + rewrite E0. simpl. real_tests. exists 0%R.
      split; [reflexivity |]. split; [lra | reflexivity].
    + assert (Hu : (0 < q <= 1)%R) by lra.
      pose proof (Rpower_unit_interval _ alpha Hu Halpha) as Hp.
      simpl. real_tests. eexists. split; [reflexivity |]. split; [lra |].
      intros Hi0. exfalso. apply N0. apply Hq0. exact Hi0.
Qed.

Lemma samples_in_map_seq (f : nat -> float) (lo hi : R) (n : nat) :
  (forall i, (i < n)%nat -> exists w : R, f i = Fin w /\ (lo <= w <= hi)%R) ->
  samples_in lo hi (map f (seq 0 n)).
Proof.
  intros H. apply Forall_forall. intros v Hv.
  apply in_map_iff in Hv. destruct Hv as [i [<- Hi]].
  apply in_seq in Hi. apply H. lia.
Qed.

Lemma ramp_bounded
    (self : TorchSynthModule.t) (p : string -> result float)
    (dur alpha : R) (inverse : bool) :
  (0 < TorchSynthModule.sample_rate self)%Z ->
  (0 <= dur)%R -> (0 < alpha)%R ->
  p "alpha" = Ok (Fin alpha) ->
  exists rmp : tensor,
    TorchADSR._ramp self p (Fin dur) inverse = Ok rmp
    /\ length rmp = Z.to_nat (samples_of self dur)
    /\ samples_in 0 1 rmp
    /\ (forall v rest, rmp = v :: rest ->
          v = if inverse then Fin 1 else Fin 0).
Proof.
  intros Hrate Hdur Halpha Hp.
  assert (Hn : (0 <= samples_of self dur)%Z)
    by (apply samples_of_nonneg; assumption).
  rewrite (ramp_eq self p (Fin dur) (Fin alpha) inverse Hp Hn).
  change (Float.round_int
            (Fin dur * Float.of_Z (TorchSynthModule.sample_rate self))%fl)
    with (samples_of self dur).
  eexists. split; [reflexivity |].
  split; [rewrite length_map, length_seq; reflexivity |].
  split.
  - apply samples_in_map_seq. intros i Hi.
    destruct (ramp_sample_bounds self dur alpha inverse i Hrate Hdur Halpha Hi)
      as [w [E [Hw _]]].
    exists w. split; assumption.
  - intros v rest E.
    destruct (Z.to_nat (samples_of self dur)) as [| n] eqn:En;
      [discriminate E |].
    simpl in E. injection E as <- _.
    destruct (ramp_sample_bounds self dur alpha inverse 0 Hrate Hdur Halpha
                ltac:(lia)) as [w [E [_ H0]]].
    rewrite E, (H0 eq_refl). destruct inverse; reflexivity.
Qed.



(** ** The envelope stays in the unit interval *)

Lemma samples_in_map (f : float -> float) (lo hi lo' hi' : R) (x : tensor) :
  (forall w : R, (lo <= w <= hi)%R ->
     exists w' : R, f (Fin w) = Fin w' /\ (lo' <= w' <= hi')%R) ->
  samples_in lo hi x -> samples_in lo' hi' (map f x).
Proof.
  intros Hf Hx. unfold samples_in in *. rewrite Forall_forall in *.
  intros v Hv. apply in_map_iff in Hv. destruct Hv as [u [<- Hu]].
  destruct (Hx u Hu) as [w [-> Hw]]. apply Hf. exact Hw.
Qed.

Lemma samples_in_unit_checks (x : tensor) :
  samples_in 0 1 x ->
  Tensor.all_ge x (T 0) && Tensor.all_le x (T 1) = true.
Proof.
  intros H. unfold samples_in in H. rewrite Forall_forall in H.
  apply andb_true_iff. unfold Tensor.all_ge, Tensor.all_le.
  split; apply forallb_forall; intros v Hv;
    destruct (H v Hv) as [w [-> Hw]]; unfold Float.ge, Float.le, T;
    apply Rleb_true; lra.
Qed.

Section EnvelopeBounds.
Variable self : TorchSynthModule.t.
Variable p : string -> result float.
Variables a d s r alpha : R.
Hypothesis Hreads : adsr_reads p a d s r alpha.
Hypothesis Hrate : (0 < TorchSynthModule.sample_rate self)%Z.

Lemma alpha_pos : (0 < alpha)%R.
Proof.
  pose proof (rg_alpha _ _ _ _ _ _ Hreads). lra.
Qed.

Lemma attack_bounded (att : tensor) :
  TorchADSR.attack self p = Ok att -> samples_in 0 1 att.
Proof.
  unfold TorchADSR.attack. rewrite (rd_attack _ _ _ _ _ _ Hreads). simpl.
  destruct (ramp_bounded self p a alpha false Hrate
              (proj1 (rg_attack _ _ _ _ _ _ Hreads)) alpha_pos
              (rd_alpha _ _ _ _ _ _ Hreads)) as [rmp [-> [_ [Hin _]]]].
  intros [= <-]. exact Hin.
Qed.

Lemma release_bounded (rel : tensor) :
  TorchADSR.release self p = Ok rel -> samples_in 0 1 rel.
Proof.
  unfold TorchADSR.release. rewrite (rd_release _ _ _ _ _ _ Hreads). simpl.
  destruct (ramp_bounded self p r alpha true Hrate
              (proj1 (rg_release _ _ _ _ _ _ Hreads)) alpha_pos
              (rd_alpha _ _ _ _ _ _ Hreads)) as [rmp [-> [_ [Hin _]]]].
  intros [= <-]. exact Hin.
Qed.

Lemma decay_bounded (dec : tensor) :
  TorchADSR.decay self p = Ok dec ->
  samples_in 0 1 dec
  /\ (forall v rest, dec = v :: rest -> v = Fin (1 * (1 + - s) + s)).
Proof.
  unfold TorchADSR.decay. rewrite (rd_decay _ _ _ _ _ _ Hreads). simpl.
  destruct (ramp_bounded self p d alpha true Hrate
              (proj1 (rg_decay _ _ _ _ _ _ Hreads)) alpha_pos
              (rd_alpha _ _ _ _ _ _ Hreads)) as [rmp [-> [_ [Hin Hhd]]]].
  simpl. rewrite (rd_sustain _ _ _ _ _ _ Hreads). simpl.
  pose proof (rg_sustain _ _ _ _ _ _ Hreads) as Hs.
  intros [= <-]. split.
  - apply (samples_in_map _ 0 1 0 1); [| exact Hin].
    intros w Hw. eexists. split; [reflexivity |]. nra.
  - intros v rest E. destruct rmp as [| u rmp']; [discriminate E |].
    simpl in E. injection E as <- _.
    rewrite (Hhd u rmp' eq_refl). reflexivity.
Qed.

Lemma forward_bounded (nod : R) (out : tensor) :
  TorchADSR._forward self p (Fin nod) = Ok out -> samples_in 0 1 out.
Proof.
  intros Hout.
  pose proof (forward_Ok_nonneg self p nod out Hout) as Hnod.
  destruct (attack_ok self p a d s r alpha Hreads Hrate) as [att [Hatt _]].
  destruct (decay_ok self p a d s r alpha Hreads Hrate) as [dec [Hdec _]].
  destruct (release_ok self p a d s r alpha Hreads Hrate) as [rel [Hrel _]].
  pose proof (attack_bounded att Hatt) as Ba.
  pose proof (decay_bounded dec Hdec) as [Bd _].
  pose proof (release_bounded rel Hrel) as Br.
  pose proof (rg_sustain _ _ _ _ _ _ Hreads) as Hs.
  assert (Bad : samples_in 0 1 (att ++ dec)) by (apply Forall_app_2; assumption).
  destruct (forward_returns self p a d s r alpha Hreads Hrate att dec rel
              Hatt Hdec Hrel nod Hnod out Hout) as [Hn1 _].
  destruct (Z_le_gt_dec (samples_of self (effective a d nod))
              (Z.of_nat (length (att ++ dec)))) as [Hle | Hgt].
  - destruct (forward_truncated self p a d s r alpha Hreads att dec rel
                Hatt Hdec Hrel nod Hnod ltac:(lia)) as [last_val [Hnth E]].
    rewrite E in Hout. injection Hout as <-.
    apply nth_error_In in Hnth.
    unfold samples_in in Bad. rewrite Forall_forall in Bad.
    destruct (Bad _ Hnth) as [wl [-> Hwl]].
    apply Forall_app_2.
    + apply Forall_take. apply Forall_forall. exact Bad.
    + apply (samples_in_map _ 0 1 0 1); [| exact Br].
      intros w Hw. eexists. split; [reflexivity |]. nra.
  - rewrite (forward_held self p a d s r alpha Hreads att dec rel
               Hatt Hdec Hrel nod Hnod ltac:(lia)) in Hout.
    injection Hout as <-.
    apply Forall_app_2; [apply Forall_app_2; [exact Bad |] |].
    + rewrite map_repeat. apply Forall_forall. intros v Hv.
      apply repeat_spec in Hv. subst v.
      eexists. split; [reflexivity |]. lra.
    + apply (samples_in_map _ 0 1 0 1); [| exact Br].
      intros w Hw. eexists. split; [reflexivity |]. nra.
Qed.
End EnvelopeBounds.

(** X18: for reads that give values of the declared ranges, every sample of
    an envelope that [TorchADSR._forward] returns is finite and in [[0,1]],
    so the envelope passes the assertion that [TorchVCA._forward] makes of
    its control signal. *)
Theorem envelope_is_a_valid_control
    (self : TorchSynthModule.t) (p : string -> result float)
    (a d s r alpha nod : R) (out : tensor) :
  adsr_reads p a d s r alpha ->
  (0 < TorchSynthModule.sample_rate self)%Z ->
  TorchADSR._forward self p (Fin nod) = Ok out ->
  samples_in 0 1 out
  /\ Tensor.all_ge out (T 0) && Tensor.all_le out (T 1) = true
  /\ (forall audio_in : tensor,
        TorchVCA._forward out audio_in <> Raise AssertionError).
Proof.
  intros Hreads Hrate Hout.
  pose proof (forward_bounded self p a d s r alpha Hreads Hrate nod out Hout)
    as Hin.
  pose proof (samples_in_unit_checks out Hin) as Hchk.
  split; [exact Hin |]. split; [exact Hchk |].
  intros audio_in. rewrite vca_forward_eq, Hchk. simpl.
  destruct (Tensor.mul _ _) as [res | e] eqn:E; [discriminate |].
  intros [= ->]. revert E.
  generalize (TorchUtil.fix_length audio_in (Z.of_nat (length out))).
  clear. induction out as [| x xs IH]; intros [| y ys]; simpl;
    try discriminate.
  destruct (Tensor.mul xs ys) eqn:E'; simpl; [discriminate |].
  intros [= ->]. apply (IH ys). exact E'.
Qed.

Lemma forward_total
    (self : TorchSynthModule.t) (p : string -> result float)
    (a d s r alpha nod : R) :
  adsr_reads p a d s r alpha ->
  (0 < TorchSynthModule.sample_rate self)%Z ->
  (0 <= nod)%R ->
  (1 <= samples_of self (effective a d nod))%Z ->
  exists out : tensor,
    TorchADSR._forward self p (Fin nod) = Ok out
    /\ length out
       = (Z.to_nat (samples_of self (effective a d nod))
          + Z.to_nat (samples_of self r))%nat.
Proof.
  intros Hreads Hrate Hnod Hn.
  destruct (attack_ok self p a d s r alpha Hreads Hrate) as [att [Hatt _]].
  destruct (decay_ok self p a d s r alpha Hreads Hrate) as [dec [Hdec _]].
  destruct (release_ok self p a d s r alpha Hreads Hrate) as [rel [Hrel Lrel]].
  assert (Hex : exists out, TorchADSR._forward self p (Fin nod) = Ok out).
  { destruct (Z_le_gt_dec (samples_of self (effective a d nod))
                (Z.of_nat (length (att ++ dec)))) as [Hle | Hgt].
    - destruct (forward_truncated self p a d s r alpha Hreads att dec rel
                  Hatt Hdec Hrel nod Hnod ltac:(lia)) as [last_val [_ E]].
      eexists. exact E.
    - eexists.
      apply (forward_held self p a d s r alpha Hreads att dec rel
               Hatt Hdec Hrel nod Hnod). lia. }
  destruct Hex as [out Hout]. exists out. split; [exact Hout |].
  destruct (forward_returns self p a d s r alpha Hreads Hrate att dec rel
              Hatt Hdec Hrel nod Hnod out Hout) as [_ Hlen].
  rewrite Hlen, Lrel. reflexivity.
Qed.

Lemma envelope_is_a_valid_control_witness :
  exists out : tensor,
    TorchADSR._forward (TorchSynthModule.init 4 512)
      (reads [("attack", Fin 1); ("decay", Fin 1); ("sustain", Fin 0.5);
              ("release", Fin 1); ("alpha", Fin 3)]) (Fin 1) = Ok out
    /\ samples_in 0 1 out
    /\ Tensor.all_ge out (T 0) && Tensor.all_le out (T 1) = true
    /\ (forall audio_in : tensor,
          TorchVCA._forward out audio_in <> Raise AssertionError).
Proof.
  assert (Hreads : adsr_reads
            (reads [("attack", Fin 1); ("decay", Fin 1); ("sustain", Fin 0.5);
                    ("release", Fin 1); ("alpha", Fin 3)]) 1 1 0.5 1 3)
    by (constructor; try reflexivity; lra).
  assert (Hrate : (0 < TorchSynthModule.sample_rate
                         (TorchSynthModule.init 4 512))%Z) by (simpl; lia).
  destruct (forward_total (TorchSynthModule.init 4 512) _ 1 1 0.5 1 3 1
              Hreads Hrate ltac:(lra)) as [out [Hout _]].
  { rewrite effective_pos by lra. unfold samples_of. simpl.
    rewrite (round_half_even_unique (1 * 4) 4); [lia | lra]. }
  exists out. split; [exact Hout |].
  exact (envelope_is_a_valid_control (TorchSynthModule.init 4 512) _
           1 1 0.5 1 3 1 out Hreads Hrate Hout).
Defined.





(** X21: [TorchADSR._forward] refuses a negative or NaN note-on duration
    with [AssertionError] before it reads any parameter, whatever the read
    method does. *)
Theorem negative_note_on_duration_is_refused
    (self : TorchSynthModule.t) (p : string -> result float) (nod : R) :
  (nod < 0)%R ->
  TorchADSR._forward self p (Fin nod) = Raise AssertionError
  /\ TorchADSR._forward self p NaN = Raise AssertionError
  /\ TorchADSR._forward self p NInf = Raise AssertionError.
Proof.
  intros H. unfold TorchADSR._forward, Float.ge, Float.le, T.
  rewrite Rleb_false by lra. repeat split; reflexivity.
Qed.

Lemma negative_note_on_duration_is_refused_witness :
  TorchADSR._forward (TorchSynthModule.init 44100 512) (reads []) (Fin (-1))
  = Raise AssertionError
  /\ TorchADSR._forward (TorchSynthModule.init 44100 512) (reads []) NaN
     = Raise AssertionError
  /\ TorchADSR._forward (TorchSynthModule.init 44100 512) (reads []) NInf
     = Raise AssertionError.
Proof.
  apply (negative_note_on_duration_is_refused
           (TorchSynthModule.init 44100 512) (reads []) (-1)).
  lra.
Defined.

(** X22: a negative duration is not refused by [_ramp] itself: when its
    sample count rounds to a negative number [torch.arange] raises
    [RuntimeError], before alpha is read, and when it rounds to 0 the ramp
    is returned empty. *)
Theorem ramp_of_negative_duration
    (self : TorchSynthModule.t) (p : string -> result float)
    (dur : R) (inverse : bool) (alpha : float) :
  ((samples_of self dur < 0)%Z ->
   TorchADSR._ramp self p (Fin dur) inverse = Raise RuntimeError)
  /\ (samples_of self dur = 0%Z ->
      p "alpha" = Ok alpha ->
      TorchADSR._ramp self p (Fin dur) inverse = Ok []).
Proof.
  split.
  - intros H. unfold TorchADSR._ramp, TorchSynthModule.seconds_to_samples.
    simpl. fold (samples_of self dur). unfold Tensor.arange.
    destruct (Z.ltb_spec (samples_of self dur) 0); [reflexivity | lia].
  - intros H Hp.
    rewrite (ramp_eq self p (Fin dur) alpha inverse Hp).
    + change (Float.round_int
                (Fin dur * Float.of_Z (TorchSynthModule.sample_rate self))%fl)
        with (samples_of self dur).
      rewrite H. reflexivity.
    + change (Float.round_int
                (Fin dur * Float.of_Z (TorchSynthModule.sample_rate self))%fl)
        with (samples_of self dur).
      lia.
Qed.

Lemma ramp_of_negative_duration_witness :
  TorchADSR._ramp (TorchSynthModule.init 44100 512)
    (reads [("alpha", Fin 3)]) (Fin (-1)) false = Raise RuntimeError
  /\ TorchADSR._ramp (TorchSynthModule.init 44100 512)
       (reads [("alpha", Fin 3)]) (Fin (-0.00001)) false = Ok [].
Proof.
  destruct (ramp_of_negative_duration (TorchSynthModule.init 44100 512)
              (reads [("alpha", Fin 3)]) (-1) false (Fin 3)) as [H1 _].
  destruct (ramp_of_negative_duration (TorchSynthModule.init 44100 512)
              (reads [("alpha", Fin 3)]) (-0.00001) false (Fin 3)) as [_ H2].
  split.
  - apply H1. unfold samples_of. simpl.
    rewrite (round_half_even_unique (-1 * 44100) (-44100)); [lia | lra].
  - apply H2; [| reflexivity]. unfold samples_of. simpl.
    apply round_half_even_unique. lra.
Defined.

(** ** The oscillators, for reads that give values *)

Lemma midi_to_hz_Fin (x : R) : TorchUtil.midi_to_hz (Fin x) = Fin (hz x).
Proof.
  unfold TorchUtil.midi_to_hz, hz, T. simpl. real_tests. reflexivity.
Qed.

Lemma hz_pos (x : R) : (0 < hz x)%R.
Proof.
  unfold hz, Rpower. pose proof (exp_pos ((x - 69) / 12 * ln 2)). lra.
Qed.

Lemma hz_mono (x y : R) : (x <= y)%R -> (hz x <= hz y)%R.
Proof.
  intros H. unfold hz.
  assert (Rpower 2 ((x - 69) / 12) <= Rpower 2 ((y - 69) / 12))%R
    by (apply Rle_Rpower; lra).
  lra.
Qed.

Lemma valid_mod_samples (x : tensor) :
  valid_mod x = true <-> samples_in (-1) 1 x.
Proof.
  unfold valid_mod, samples_in, Tensor.all_ge, Tensor.all_le, T.
  rewrite andb_true_iff, !forallb_forall, Forall_forall. split.
  - intros [Hge Hle] v Hv. specialize (Hge v Hv). specialize (Hle v Hv).
    destruct v as [w | | |]; simpl in Hge, Hle; try discriminate.
    exists w. split; [reflexivity |].
    unfold Float.Rleb in Hge, Hle.
    destruct (Rle_dec (-1) w); [| discriminate].
    destruct (Rle_dec w 1); [| discriminate]. lra.
  - intros H. split; intros v Hv; destruct (H v Hv) as [w [-> Hw]];
      unfold Float.ge, Float.le; apply Rleb_true; lra.
Qed.

Lemma cumsum_from_length (acc : float) (x : tensor) :
  length (Tensor.cumsum_from acc x) = length x.
Proof.
  revert acc. induction x as [| v x IH]; intros acc; simpl;
    [reflexivity | rewrite IH; reflexivity].
Qed.

Lemma cumsum_length (x : tensor) : length (Tensor.cumsum x) = length x.
Proof.
  destruct x as [| v x]; simpl; [reflexivity |].
  rewrite cumsum_from_length. reflexivity.
Qed.

Lemma cosine_argument_length (SAMPLE_RATE : Z) (cf : tensor) (phase : float) :
  length (cosine_argument SAMPLE_RATE cf phase) = length cf.
Proof.
  unfold cosine_argument, TorchVCO.make_argument.
  rewrite length_map, cumsum_length, length_map. reflexivity.
Qed.

Lemma make_control_as_frequency_length (cls : TorchVCO.kind)
    (p : string -> result float) (mod_signal cf : tensor) :
  TorchVCO.make_control_as_frequency cls p mod_signal = Ok cf ->
  length cf = length mod_signal.
Proof.
  unfold TorchVCO.make_control_as_frequency.
  destruct cls; destruct (p "mod_depth"), (p "pitch"); simpl;
    try discriminate; intros [= <-]; rewrite !length_map; reflexivity.
Qed.

Lemma oscillator_length (cls : TorchVCO.kind) (p : string -> result float)
    (argument out : tensor) :
  TorchVCO.oscillator cls p argument = Ok out ->
  length out = length argument.
Proof.
  unfold TorchVCO.oscillator.
  destruct cls; try (intros [= <-]; rewrite length_map; reflexivity).
  destruct (TorchVCO.partials_constant p); simpl; [| discriminate].
  destruct (p "shape"); simpl; [| discriminate].
  intros [= <-]. rewrite length_map. reflexivity.
Qed.

(** X23: the failures of [TorchVCO._forward] leave the stored phase as it
    was.  A modulation signal with a sample outside [[-1,1]] raises
    [AssertionError] before any parameter is read; an empty signal passes
    the assertion and, with reads that give values, raises [IndexError] at
    [cosine_argument[-1]]. *)
Theorem vco_failures_keep_phase
    (SAMPLE_RATE : Z) (cls : TorchVCO.kind) (p : string -> result float)
    (ph : float) (mod_signal : tensor) (phase pitch depth : float) :
  (valid_mod mod_signal = false ->
   TorchVCO._forward SAMPLE_RATE cls p ph mod_signal phase
   = (Raise AssertionError, ph))
  /\ (p "pitch" = Ok pitch ->
      p "mod_depth" = Ok depth ->
      TorchVCO._forward SAMPLE_RATE cls p ph [] phase
      = (Raise IndexError, ph)).
Proof.
  split.
  - intros Hv. unfold TorchVCO._forward. fold (valid_mod mod_signal).
    rewrite Hv. reflexivity.
  - intros Hp Hd. unfold TorchVCO._forward, TorchVCO.make_control_as_frequency.
    rewrite Hp, Hd. destruct cls; reflexivity.
Qed.

Lemma vco_failures_keep_phase_witness :
  TorchVCO._forward 44100 TorchVCO.Sine (reads []) (T 0) [T 0; T 2] (T 0)
  = (Raise AssertionError, T 0)
  /\ TorchVCO._forward 44100 TorchVCO.Sine
       (reads [("pitch", Fin 69); ("mod_depth", Fin 0)]) (T 0) [] (T 0)
     = (Raise IndexError, T 0).
Proof.
  destruct (vco_failures_keep_phase 44100 TorchVCO.Sine (reads [])
              (T 0) [T 0; T 2] (T 0) (T 0) (T 0)) as [H1 _].
  destruct (vco_failures_keep_phase 44100 TorchVCO.Sine
              (reads [("pitch", Fin 69); ("mod_depth", Fin 0)])
              (T 0) [] (T 0) (Fin 69) (Fin 0)) as [_ H2].
  split.
  - apply H1. unfold valid_mod, Tensor.all_ge, Tensor.all_le, T. simpl.
    unfold Float.ge, Float.le. real_tests. reflexivity.
  - apply H2; reflexivity.
Defined.

Lemma vco_forward_returns
    (SAMPLE_RATE : Z) (cls : TorchVCO.kind) (p : string -> result float)
    (ph : float) (mod_signal : tensor) (phase pitch depth shape : float) :
  p "pitch" = Ok pitch ->
  p "mod_depth" = Ok depth ->
  p "shape" = Ok shape ->
  valid_mod mod_signal = true ->
  mod_signal <> [] ->
  exists (out cf : tensor) (stored : float),
    TorchVCO._forward SAMPLE_RATE cls p ph mod_signal phase = (Ok out, stored)
    /\ length out = length mod_signal
    /\ TorchVCO.make_control_as_frequency cls p mod_signal = Ok cf
    /\ Tensor.last_item (cosine_argument SAMPLE_RATE cf phase) = Ok stored.
Proof.
  intros Hp Hd Hs Hv Hne.
  assert (Hcf : exists cf,
             TorchVCO.make_control_as_frequency cls p mod_signal = Ok cf).
  { unfold TorchVCO.make_control_as_frequency. rewrite Hp, Hd.
    destruct cls; simpl; eexists; reflexivity. }
  destruct Hcf as [cf Hcf].
  pose proof (make_control_as_frequency_length cls p mod_signal cf Hcf) as Lcf.
  assert (Hane : cosine_argument SAMPLE_RATE cf phase <> []).
  { intros E. apply (f_equal (@length float)) in E.
    rewrite cosine_argument_length, Lcf in E.
    destruct mod_signal; [contradiction | discriminate]. }
  destruct (last_item_some _ Hane) as [stored Hlast].
  assert (Hosc : exists out,
             TorchVCO.oscillator cls p (cosine_argument SAMPLE_RATE cf phase)
             = Ok out).
  { unfold TorchVCO.oscillator, TorchVCO.partials_constant.
    rewrite Hp, Hd, Hs. destruct cls; simpl; eexists; reflexivity. }
  destruct Hosc as [out Hosc].
  exists out, cf, stored. split.
  - apply (vco_forward_intro SAMPLE_RATE cls p ph mod_signal cf); assumption.
  - split; [| split; assumption].
    rewrite (oscillator_length cls p _ out Hosc), cosine_argument_length.
    exact Lcf.
Qed.

(** X24: with reads that give pitch, mod depth and shape, a render of a
    signal that is not empty and lies in [[-1,1]] returns, for each
    oscillator class: the output has one sample for each sample of the
    modulation signal, and the phase stored is the last cosine argument. *)
Theorem vco_render_length
    (SAMPLE_RATE : Z) (cls : TorchVCO.kind) (p : string -> result float)
    (ph : float) (mod_signal : tensor) (phase pitch depth shape : float) :
  p "pitch" = Ok pitch ->
  p "mod_depth" = Ok depth ->
  p "shape" = Ok shape ->
  valid_mod mod_signal = true ->
  mod_signal <> [] ->
  exists (out cf : tensor) (stored : float),
    TorchVCO._forward SAMPLE_RATE cls p ph mod_signal phase = (Ok out, stored)
    /\ length out = length mod_signal
    /\ TorchVCO.make_control_as_frequency cls p mod_signal = Ok cf
    /\ Tensor.last_item (cosine_argument SAMPLE_RATE cf phase) = Ok stored.
Proof.
  apply vco_forward_returns.
Qed.

Lemma vco_render_length_witness :
  exists (out cf : tensor) (stored : float),
    TorchVCO._forward 44100 TorchVCO.SquareSaw
      (reads [("pitch", Fin 69); ("mod_depth", Fin 12); ("shape", Fin 1)])
      (T 0) [T 0; T 1] (T 0) = (Ok out, stored)
    /\ length out = length [T 0; T 1]
    /\ TorchVCO.make_control_as_frequency TorchVCO.SquareSaw
         (reads [("pitch", Fin 69); ("mod_depth", Fin 12); ("shape", Fin 1)])
         [T 0; T 1] = Ok cf
    /\ Tensor.last_item (cosine_argument 44100 cf (T 0)) = Ok stored.
Proof.
  apply (vco_render_length 44100 TorchVCO.SquareSaw
           (reads [("pitch", Fin 69); ("mod_depth", Fin 12); ("shape", Fin 1)])
           (T 0) [T 0; T 1] (T 0) (Fin 69) (Fin 12) (Fin 1));
    try reflexivity.
  - unfold valid_mod, Tensor.all_ge, Tensor.all_le, T. simpl.
    unfold Float.ge, Float.le. real_tests. reflexivity.
  - discriminate.
Defined.

(** The control frequencies, sample by sample. *)
Lemma control_as_frequency_samples (cls : TorchVCO.kind)
    (p : string -> result float) (pitch depth : R) (mod_signal : tensor) :
  p "pitch" = Ok (Fin pitch) ->
  p "mod_depth" = Ok (Fin depth) ->
  samples_in (-1) 1 mod_signal ->
  exists cf : tensor,
    TorchVCO.make_control_as_frequency cls p mod_signal = Ok cf
    /\ Forall2 (fun m f => exists w : R,
                  m = Fin w /\ (-1 <= w <= 1)%R
                  /\ f = Fin (match cls with
                              | TorchVCO.Fm =>
                                  hz pitch + depth * hz pitch * w
                              | _ => hz (pitch + depth * w)
                              end)%R)
         mod_signal cf.
Proof.
  intros Hp Hd Hm. unfold TorchVCO.make_control_as_frequency.
  rewrite Hp, Hd. destruct cls; simpl; eexists; (split; [reflexivity |]);
    rewrite ?map_map; induction Hm as [| m x [w [-> Hw]] Hx IH]; simpl;
    constructor; try exact IH; exists w;
    (split; [reflexivity |]); (split; [exact Hw |]);
    rewrite ?midi_to_hz_Fin; simpl; rewrite ?midi_to_hz_Fin; reflexivity.
Qed.

Lemma cumsum_from_finite (acc : R) (x : tensor) :
  Forall (fun v => exists w : R, v = Fin w) x ->
  Forall (fun v => exists w : R, v = Fin w) (Tensor.cumsum_from (Fin acc) x).
Proof.
  intros H. revert acc. induction H as [| v x [w ->] Hx IH]; intros acc;
    simpl; constructor; [eexists; reflexivity | apply IH].
Qed.

Lemma cumsum_finite (x : tensor) :
  Forall (fun v => exists w : R, v = Fin w) x ->
  Forall (fun v => exists w : R, v = Fin w) (Tensor.cumsum x).
Proof.
  intros H. destruct H as [| v x [w ->] Hx]; simpl; constructor;
    [eexists; reflexivity | apply cumsum_from_finite; exact Hx].
Qed.

Lemma cosine_argument_finite (SAMPLE_RATE : Z) (cf : tensor) (phase : R) :
  SAMPLE_RATE <> 0%Z ->
  Forall (fun v => exists w : R, v = Fin w) cf ->
  Forall (fun v => exists w : R, v = Fin w)
    (cosine_argument SAMPLE_RATE cf (Fin phase)).
Proof.
  intros Hsr Hcf. unfold cosine_argument, TorchVCO.make_argument.
  assert (Hz : IZR SAMPLE_RATE <> 0%R) by (apply not_0_IZR; exact Hsr).
  rewrite Forall_forall. intros v Hv. apply in_map_iff in Hv.
  destruct Hv as [u [<- Hu]].
  assert (Hfin : Forall (fun v => exists w : R, v = Fin w)
            (Tensor.cumsum
               (map (fun f => (T 2 * Float.pi * f / Float.of_Z SAMPLE_RATE)%fl)
                  cf))).
  { apply cumsum_finite. rewrite Forall_forall in *. intros y Hy.
    apply in_map_iff in Hy. destruct Hy as [f [<- Hf]].
    destruct (Hcf f Hf) as [w ->]. unfold T, Float.pi, Float.of_Z. simpl.
    rewrite Reqb_false by exact Hz. eexists. reflexivity. }
  rewrite Forall_forall in Hfin. destruct (Hfin u Hu) as [w ->].
  eexists. reflexivity.
Qed.

(** X25: the sine and the FM oscillator stay in [[-1,1]]: with finite
    pitch, mod depth and phase offset and a sample rate other than 0, every
    sample of a render that returns is finite and in [[-1,1]], and the phase
    stored is finite. *)
Theorem cosine_oscillators_bounded
    (SAMPLE_RATE : Z) (cls : TorchVCO.kind) (p : string -> result float)
    (ph : float) (mod_signal : tensor) (pitch depth phase : R)
    (out : tensor) (stored : float) :
  cls <> TorchVCO.SquareSaw ->
  SAMPLE_RATE <> 0%Z ->
  p "pitch" = Ok (Fin pitch) ->
  p "mod_depth" = Ok (Fin depth) ->
  TorchVCO._forward SAMPLE_RATE cls p ph mod_signal (Fin phase)
  = (Ok out, stored) ->
  samples_in (-1) 1 out /\ exists w : R, stored = Fin w.
Proof.
  intros Hcls Hsr Hp Hd H.
  destruct (vco_forward_inv _ _ _ _ _ _ _ _ H) as [Hv [cf [Hcf [Hlast Hosc]]]].
  apply valid_mod_samples in Hv.
  destruct (control_as_frequency_samples cls p pitch depth mod_signal Hp Hd Hv)
    as [cf' [Hcf' Hrel]].
  rewrite Hcf in Hcf'. injection Hcf' as <-.
  assert (Hfin : Forall (fun v => exists w : R, v = Fin w) cf).
  { clear -Hrel. induction Hrel as [| m f x y [w [_ [_ ->]]] _ IH];
      constructor; [eexists; reflexivity | exact IH]. }
  pose proof (cosine_argument_finite SAMPLE_RATE cf phase Hsr Hfin) as Harg.
  split.
  - assert (E : out = map Float.cos
                        (cosine_argument SAMPLE_RATE cf (Fin phase))).
    { unfold TorchVCO.oscillator in Hosc.
      destruct cls; try contradiction; injection Hosc as <-; reflexivity. }
    rewrite E. unfold samples_in. rewrite Forall_forall in *.
    intros v Hin. apply in_map_iff in Hin. destruct Hin as [u [<- Hu]].
    destruct (Harg u Hu) as [w ->]. exists (Rtrigo_def.cos w).
    split; [reflexivity |]. pose proof (COS_bound w). lra.
  - unfold Tensor.last_item in Hlast.
    destruct (rev (cosine_argument SAMPLE_RATE cf (Fin phase)))
      as [| v l] eqn:E; [discriminate |].
    injection Hlast as <-. rewrite Forall_forall in Harg. apply Harg.
    apply in_rev. rewrite E. left. reflexivity.
Qed.

Lemma cosine_oscillators_bounded_witness :
  exists (out : tensor) (stored : float),
    TorchVCO._forward 44100 TorchVCO.Fm
      (reads [("pitch", Fin 69); ("mod_depth", Fin 12); ("shape", Fin 0)])
      (T 0) [T 0; T 1] (Fin 0) = (Ok out, stored)
    /\ samples_in (-1) 1 out
    /\ exists w : R, stored = Fin w.
Proof.
  assert (Hv : valid_mod [T 0; T 1] = true).
  { unfold valid_mod, Tensor.all_ge, Tensor.all_le, T. simpl.
    unfold Float.ge, Float.le. real_tests. reflexivity. }
  destruct (vco_forward_returns 44100 TorchVCO.Fm
              (reads [("pitch", Fin 69); ("mod_depth", Fin 12);
                      ("shape", Fin 0)])
              (T 0) [T 0; T 1] (Fin 0) (Fin 69) (Fin 12) (Fin 0)
              eq_refl eq_refl eq_refl Hv ltac:(discriminate))
    as [out [cf [stored [H _]]]].
  exists out, stored. split; [exact H |].
  apply (cosine_oscillators_bounded 44100 TorchVCO.Fm
           (reads [("pitch", Fin 69); ("mod_depth", Fin 12); ("shape", Fin 0)])
           (T 0) [T 0; T 1] 69 12 0 out stored);
    try reflexivity; try discriminate; try lia.
  exact H.
Defined.







(** X27: the control frequencies stay within the mod depth: for a mod depth
    [>= 0] and a modulation signal in [[-1,1]], the sine and the square-saw
    oscillator keep every control frequency between
    [midi_to_hz(pitch - depth)] and [midi_to_hz(pitch + depth)], the [max_f0]
    of [partials_constant]; the FM oscillator keeps it between
    [f0 * (1 - depth)] and [f0 * (1 + depth)] for [f0 = midi_to_hz(pitch)]. *)
Theorem control_frequency_within_depth
    (cls : TorchVCO.kind) (p : string -> result float)
    (pitch depth : R) (mod_signal : tensor) :
  p "pitch" = Ok (Fin pitch) ->
  p "mod_depth" = Ok (Fin depth) ->
  (0 <= depth)%R ->
  valid_mod mod_signal = true ->
  exists cf : tensor,
    TorchVCO.make_control_as_frequency cls p mod_signal = Ok cf
    /\ samples_in
         (match cls with
          | TorchVCO.Fm => hz pitch * (1 - depth)
          | _ => hz (pitch - depth)
          end)
         (match cls with
          | TorchVCO.Fm => hz pitch * (1 + depth)
          | _ => hz (pitch + depth)
          end) cf
    /\ TorchUtil.midi_to_hz (Fin pitch + Fin depth) = Fin (hz (pitch + depth))
    /\ TorchUtil.midi_to_hz (Fin pitch) = Fin (hz pitch).
Proof.
  intros Hp Hd Hdepth Hv. apply valid_mod_samples in Hv.
  destruct (control_as_frequency_samples cls p pitch depth mod_signal Hp Hd Hv)
    as [cf [Hcf Hrel]].
  exists cf. split; [exact Hcf |].
  split; [| split; apply midi_to_hz_Fin].
  unfold samples_in. clear Hcf Hv.
  induction Hrel as [| m f x y [w [_ [Hw ->]]] _ IH]; constructor;
    [| exact IH].
  eexists. split; [reflexivity |].
  pose proof (hz_pos pitch) as Hpos.
  destruct cls.
  - split; apply hz_mono; nra.
  - assert (H1 : (0 <= depth * hz pitch * (1 - w))%R)
      by (apply Rmult_le_pos; [apply Rmult_le_pos |]; lra).
    assert (H2 : (0 <= depth * hz pitch * (1 + w))%R)
      by (apply Rmult_le_pos; [apply Rmult_le_pos |]; lra).
    lra.
  - split; apply hz_mono; nra.
Qed.

Lemma control_frequency_within_depth_witness :
  exists cf : tensor,
    TorchVCO.make_control_as_frequency TorchVCO.SquareSaw
      (reads [("pitch", Fin 69); ("mod_depth", Fin 12)]) [T (-1); T 1] = Ok cf
    /\ samples_in (hz (69 - 12)) (hz (69 + 12)) cf
    /\ TorchUtil.midi_to_hz (Fin 69 + Fin 12) = Fin (hz (69 + 12))
    /\ TorchUtil.midi_to_hz (Fin 69) = Fin (hz 69).
Proof.
  apply (control_frequency_within_depth TorchVCO.SquareSaw
           (reads [("pitch", Fin 69); ("mod_depth", Fin 12)]) 69 12
           [T (-1); T 1]); try reflexivity; [lra |].
  unfold valid_mod, Tensor.all_ge, Tensor.all_le, T. simpl.
  unfold Float.ge, Float.le. real_tests. reflexivity.
Defined.

(** ** The amplifier, sample by sample *)

Lemma tensor_mul_nth (x y : tensor) :
  length x = length y ->
  exists r : tensor,
    Tensor.mul x y = Ok r
    /\ forall i : nat, (i < length x)%nat ->
         nth i r NaN = (nth i x NaN * nth i y (T 0))%fl.
Proof.
  revert y. induction x as [| a x IH]; intros [| b y] L; simpl in L;
    try discriminate.
  - exists []. split; [reflexivity |]. simpl. intros i Hi. lia.
  - injection L as L. destruct (IH y L) as [r [Hr Hn]].
    exists ((a * b)%fl :: r). simpl. rewrite Hr. split; [reflexivity |].
    intros [| i] Hi; [reflexivity |]. apply Hn. lia.
Qed.

Lemma fix_length_length (signal : tensor) (n : nat) :
  length (TorchUtil.fix_length signal (Z.of_nat n)) = n.
Proof.
  unfold TorchUtil.fix_length. rewrite Nat2Z.id.
  rewrite length_app, length_firstn, repeat_length. lia.
Qed.

Lemma fix_length_nth (signal : tensor) (n i : nat) :
  (i < n)%nat ->
  nth i (TorchUtil.fix_length signal (Z.of_nat n)) (T 0)
  = nth i signal (T 0).
Proof.
  intros Hi. unfold TorchUtil.fix_length. rewrite Nat2Z.id.
  destruct (Nat.lt_ge_cases i (length signal)) as [Hlt | Hge].
  - rewrite app_nth1 by (rewrite length_firstn; lia).
    rewrite nth_firstn. destruct (Nat.ltb_spec i n); [reflexivity | lia].
  - rewrite app_nth2 by (rewrite length_firstn; lia).
    rewrite nth_repeat, nth_overflow by exact Hge. reflexivity.
Qed.

(** X28: [TorchVCA._forward] on a control signal in [[0,1]] returns a signal
    of the length of the control signal, whatever the length of the audio:
    sample [i] is [control_in[i] * audio_in[i]], with the audio cut at the
    length of the control signal and read as 0 past its own end. *)
Theorem vca_multiplies_sample_by_sample (control_in audio_in : tensor) :
  Tensor.all_ge control_in (T 0) && Tensor.all_le control_in (T 1) = true ->
  exists out : tensor,
    TorchVCA._forward control_in audio_in = Ok out
    /\ length out = length control_in
    /\ forall i : nat, (i < length control_in)%nat ->
         nth i out NaN
         = (nth i control_in NaN * nth i audio_in (T 0))%fl.
Proof.
  intros Hc. rewrite vca_forward_eq, Hc. cbn [assert bind].
  destruct (tensor_mul_nth control_in
              (TorchUtil.fix_length audio_in (Z.of_nat (length control_in))))
    as [out [Hout Hn]].
  { rewrite fix_length_length. reflexivity. }
  exists out. split; [exact Hout |].
  split; [apply (tensor_mul_length _ _ _ Hout) |].
  intros i Hi. rewrite (Hn i Hi), fix_length_nth by exact Hi. reflexivity.
Qed.

Lemma vca_multiplies_sample_by_sample_witness :
  exists out : tensor,
    TorchVCA._forward [T 1; T 0.5; T 0] [T 0.5] = Ok out
    /\ length out = length [T 1; T 0.5; T 0]
    /\ forall i : nat, (i < length [T 1; T 0.5; T 0])%nat ->
         nth i out NaN
         = (nth i [T 1; T 0.5; T 0] NaN * nth i [T 0.5] (T 0))%fl.
Proof.
  apply (vca_multiplies_sample_by_sample [T 1; T 0.5; T 0] [T 0.5]).
  unfold Tensor.all_ge, Tensor.all_le, T. simpl.
  unfold Float.ge, Float.le. real_tests. reflexivity.
Defined.

(** ** The square-saw oscillator *)

Lemma tanh_bound (x : R) : (-1 < Rtrigo_def.tanh x < 1)%R.
Proof.
  unfold Rtrigo_def.tanh, sinh, cosh.
  pose proof (exp_pos x) as Ha. pose proof (exp_pos (- x)) as Hb.
  set (a := exp x) in *. set (b := exp (- x)) in *.
  assert (Hd : (0 < (a + b) / 2)%R) by lra.
  split.
  - apply (Rmult_lt_reg_r ((a + b) / 2)); [exact Hd |].
    replace ((a - b) / 2 / ((a + b) / 2) * ((a + b) / 2))%R
      with ((a - b) / 2)%R by (field; lra).
    lra.
  - apply (Rmult_lt_reg_r ((a + b) / 2)); [exact Hd |].
    replace ((a - b) / 2 / ((a + b) / 2) * ((a + b) / 2))%R
      with ((a - b) / 2)%R by (field; lra).
    lra.
Qed.

Lemma square_saw_sample_bound (s t c : R) :
  (0 <= s <= 1)%R -> (-1 < t < 1)%R -> (-1 <= c <= 1)%R ->
  (- (9 / 8) <= (1 - s / 2) * t * (1 + s * c) <= 9 / 8)%R.
Proof.
  intros Hs Ht Hc.
  assert (Hu0 : (0 <= (1 - s / 2) * (1 + s * c))%R)
    by (apply Rmult_le_pos; nra).
  assert (Hu1 : ((1 - s / 2) * (1 + s * c) <= 9 / 8)%R).
  { assert ((1 - s / 2) * (1 + s * c) <= (1 - s / 2) * (1 + s))%R
      by (apply Rmult_le_compat_l; nra).
    pose proof (Rle_0_sqr (s - 1 / 2)) as Hsq. unfold Rsqr in Hsq.
    replace ((1 - s / 2) * (1 + s))%R
      with (9 / 8 - (s - 1 / 2) * (s - 1 / 2) / 2)%R in H by field.
    lra. }
  set (u := ((1 - s / 2) * (1 + s * c))%R) in *.
  replace ((1 - s / 2) * t * (1 + s * c))%R with (u * t)%R
    by (unfold u; ring).
  split; nra.
Qed.

(** X29: the square-saw oscillator is bounded by 9/8, not by 1: with finite
    reads, [pitch + mod_depth >= 0], a shape in [[0,1]], a finite phase
    offset and a sample rate other than 0, every sample of a render that
    returns is finite and in [[-9/8, 9/8]]; with shape 0 it is in
    [[-1,1]]. *)
Theorem square_saw_bounded
    (SAMPLE_RATE : Z) (p : string -> result float) (ph : float)
    (mod_signal : tensor) (pitch depth shape phase : R)
    (out : tensor) (stored : float) :
  SAMPLE_RATE <> 0%Z ->
  p "pitch" = Ok (Fin pitch) ->
  p "mod_depth" = Ok (Fin depth) ->
  p "shape" = Ok (Fin shape) ->
  (0 <= pitch + depth)%R ->
  (0 <= shape <= 1)%R ->
  TorchVCO._forward SAMPLE_RATE TorchVCO.SquareSaw p ph mod_signal (Fin phase)
  = (Ok out, stored) ->
  samples_in (- (9 / 8)) (9 / 8) out
  /\ (shape = 0%R -> samples_in (-1) 1 out).
Proof.
  intros Hsr Hp Hd Hs Hsum Hshape H.
  destruct (vco_forward_inv _ _ _ _ _ _ _ _ H) as [Hv [cf [Hcf [_ Hosc]]]].
  apply valid_mod_samples in Hv.
  destruct (control_as_frequency_samples TorchVCO.SquareSaw p pitch depth
              mod_signal Hp Hd Hv) as [cf' [Hcf' Hrel]].
  rewrite Hcf in Hcf'. injection Hcf' as <-.
  assert (Hfin : Forall (fun v => exists w : R, v = Fin w) cf).
  { clear -Hrel. induction Hrel as [| m f x y [w [_ [_ ->]]] _ IH];
      constructor; [eexists; reflexivity | exact IH]. }
  pose proof (cosine_argument_finite SAMPLE_RATE cf phase Hsr Hfin) as Harg.
  unfold TorchVCO.oscillator in Hosc.
  rewrite (partials_constant_with_reads p pitch depth Hp Hd Hsum), Hs in Hosc.
  cbn [bind] in Hosc. injection Hosc as <-.
  set (pc := (12000
              / (440 * Rpower 2 ((pitch + depth + - (69)) / 12)
                 * (ln (440 * Rpower 2 ((pitch + depth + - (69)) / 12))
                    / ln 10)))%R).
  split; [| intros Hzero];
    unfold samples_in; rewrite Forall_forall in *; intros v Hin;
    apply in_map_iff in Hin; destruct Hin as [u [<- Hu]];
    destruct (Harg u Hu) as [w ->]; cbv beta; unfold T, Float.pi; simpl;
    real_tests; simpl; eexists; (split; [reflexivity |]);
    pose proof (tanh_bound (PI * pc * Rtrigo_def.sin w / 2)) as Ht;
    pose proof (COS_bound w) as Hc.
  - match goal with
    | |- (_ <= ?e <= _)%R =>
        replace e
          with ((1 - shape / 2)
                * Rtrigo_def.tanh (PI * pc * Rtrigo_def.sin w / 2)
                * (1 + shape * Rtrigo_def.cos w))%R
          by (unfold Rminus; reflexivity)
    end.
    apply square_saw_sample_bound; assumption.
  - subst shape.
    match goal with
    | |- (_ <= ?e <= _)%R =>
        replace e
          with (Rtrigo_def.tanh (PI * pc * Rtrigo_def.sin w / 2))
          by field
    end.
    lra.
Qed.

Lemma square_saw_bounded_witness :
  exists (out : tensor) (stored : float),
    TorchVCO._forward 44100 TorchVCO.SquareSaw
      (reads [("pitch", Fin 69); ("mod_depth", Fin 12); ("shape", Fin 0.5)])
      (T 0) [T 0; T 1] (Fin 0) = (Ok out, stored)
    /\ samples_in (- (9 / 8)) (9 / 8) out
    /\ (0.5%R = 0%R -> samples_in (-1) 1 out).
Proof.
  assert (Hv : valid_mod [T 0; T 1] = true).
  { unfold valid_mod, Tensor.all_ge, Tensor.all_le, T. simpl.
    unfold Float.ge, Float.le. real_tests. reflexivity. }
  destruct (vco_forward_returns 44100 TorchVCO.SquareSaw
              (reads [("pitch", Fin 69); ("mod_depth", Fin 12);
                      ("shape", Fin 0.5)])
              (T 0) [T 0; T 1] (Fin 0) (Fin 69) (Fin 12) (Fin 0.5)
              eq_refl eq_refl eq_refl Hv ltac:(discriminate))
    as [out [cf [stored [H _]]]].
  exists out, stored. split; [exact H |].
  apply (square_saw_bounded 44100
           (reads [("pitch", Fin 69); ("mod_depth", Fin 12);
                   ("shape", Fin 0.5)])
           (T 0) [T 0; T 1] 69 12 0.5 0 out stored);
    try reflexivity; try lia; try lra.
  exact H.
Defined.

(** ** The construction of an oscillator *)

